(** * Application variables of CDS: secrets, placeholders and audits

    A shallow embedding of [engine/api/application/application_variable.go]
    (package [application]) and of the relational store its SQL statements run
    against, followed by the properties of the variable store and of the audit
    trail.

    Go strings are byte sequences: they are [string] here (a list of 8-bit
    [ascii]); a [[]byte] is a [list byte], and the conversions [string(b)] and
    [[]byte(s)] are [string_of_list_byte] and [list_byte_of_string]. An
    [int64] identifier is a [Z]; no arithmetic is done on identifiers. A Go
    result pair [(value, err)] is a pair whose second component is an
    [option error] ([None] is [nil]); a nil slice and an empty slice are both
    the empty list. *)

From Stdlib Require Import ZArith List String Ascii Bool Lia.
From Stdlib Require Import Strings.Byte DecimalString Sorting.Sorted.
Import ListNotations.
Local Open Scope string_scope.
Local Open Scope Z_scope.

(** ** Errors *)

(** The [error] values that reach this package. [ErrDriver] is an error
    returned by the storage driver ([msg] is what its [Error()] method
    prints), [ErrScan] a conversion error of [Scan], [ErrCodec] an error of
    package [secret], [ErrJSON] one of [encoding/json]. [CorruptInputError] is
    [base64.CorruptInputError]; the input offset it carries in Go is left
    out. *)
Inductive error : Type :=
| ErrNoVariable
| ErrVariableExists
| ErrNoRows
| ErrDriver (msg : string)
| ErrScan (msg : string)
| ErrCodec (msg : string)
| ErrJSON (msg : string)
| CorruptInputError.

(** [err.Error()]. The text of [ErrNoVariable] is the one of the source; the
    package only ever prints an error of the driver. *)
Definition Error (e : error) : string :=
  match e with
  | ErrNoVariable => "variable not in the application"
  | ErrVariableExists => "variable already exists"
  | ErrNoRows => "sql: no rows in result set"
  | ErrDriver msg => msg
  | ErrScan msg => msg
  | ErrCodec msg => msg
  | ErrJSON msg => msg
  | CorruptInputError => "illegal base64 data"
  end.

(** [strings.Contains s substr]. *)
Fixpoint Contains (s substr : string) : bool :=
  String.prefix substr s
  || match s with
     | EmptyString => false
     | String _ s' => Contains s' substr
     end.

(** ** encoding/base64, the standard padded encoding *)

Module Base64.

Definition encodeStd : string :=
  "ABCDEFGHIJKLMNOPQRSTUVWXYZabcdefghijklmnopqrstuvwxyz0123456789+/".

Definition padChar : ascii := "="%char.

(** A 6-bit group is an [ascii] whose two high bits are clear. *)
Definition encodeChar (sextet : ascii) : ascii :=
  match String.get (nat_of_ascii sextet) encodeStd with
  | Some c => c
  | None => padChar
  end.

Fixpoint index_of (c : ascii) (s : string) (i : N) : option N :=
  match s with
  | EmptyString => None
  | String d s' => if Ascii.eqb c d then Some i else index_of c s' (N.succ i)
  end.

Definition decodeMap (c : ascii) : option ascii :=
  option_map ascii_of_N (index_of c encodeStd 0%N).

(** Three bytes are four 6-bit groups, most significant bits first. Bits of
    an [Ascii] are listed least significant first. *)
Definition split3 (a b c : ascii) : ascii * ascii * ascii * ascii :=
  let 'Ascii a0 a1 a2 a3 a4 a5 a6 a7 := a in
  let 'Ascii b0 b1 b2 b3 b4 b5 b6 b7 := b in
  let 'Ascii c0 c1 c2 c3 c4 c5 c6 c7 := c in
  (Ascii a2 a3 a4 a5 a6 a7 false false,
   Ascii b4 b5 b6 b7 a0 a1 false false,
   Ascii c6 c7 b0 b1 b2 b3 false false,
   Ascii c0 c1 c2 c3 c4 c5 false false).

Definition join4 (s0 s1 s2 s3 : ascii) : ascii * ascii * ascii :=
  let 'Ascii p0 p1 p2 p3 p4 p5 _ _ := s0 in
  let 'Ascii q0 q1 q2 q3 q4 q5 _ _ := s1 in
  let 'Ascii r0 r1 r2 r3 r4 r5 _ _ := s2 in
  let 'Ascii t0 t1 t2 t3 t4 t5 _ _ := s3 in
  (Ascii q4 q5 p0 p1 p2 p3 p4 p5,
   Ascii r2 r3 r4 r5 q0 q1 q2 q3,
   Ascii t0 t1 t2 t3 t4 t5 r0 r1).

Fixpoint encode (src : string) : string :=
  match src with
  | EmptyString => EmptyString
  | String a EmptyString =>
      let '(s0, s1, _, _) := split3 a zero zero in
      String (encodeChar s0) (String (encodeChar s1)
        (String padChar (String padChar EmptyString)))
  | String a (String b EmptyString) =>
      let '(s0, s1, s2, _) := split3 a b zero in
      String (encodeChar s0) (String (encodeChar s1)
        (String (encodeChar s2) (String padChar EmptyString)))
  | String a (String b (String c rest)) =>
      let '(s0, s1, s2, s3) := split3 a b c in
      String (encodeChar s0) (String (encodeChar s1)
        (String (encodeChar s2) (String (encodeChar s3) (encode rest))))
  end.

(** The decoder skips carriage returns and line feeds. *)
Definition is_newline (c : ascii) : bool :=
  Ascii.eqb c "010"%char || Ascii.eqb c "013"%char.

Fixpoint strip_newlines (s : string) : string :=
  match s with
  | EmptyString => EmptyString
  | String c s' =>
      if is_newline c then strip_newlines s' else String c (strip_newlines s')
  end.

Definition is_empty (s : string) : bool :=
  match s with EmptyString => true | String _ _ => false end.

(** Decoding of the quanta of four characters; padding is accepted in the
    last quantum only. *)
Fixpoint decode (s : string) : option string :=
  match s with
  | EmptyString => Some EmptyString
  | String c0 (String c1 (String c2 (String c3 rest))) =>
      match decodeMap c0, decodeMap c1 with
      | Some s0, Some s1 =>
          match decodeMap c2, decodeMap c3 with
          | Some s2, Some s3 =>
              let '(a, b, c) := join4 s0 s1 s2 s3 in
              match decode rest with
              | Some out => Some (String a (String b (String c out)))
              | None => None
              end
          | Some s2, None =>
              if Ascii.eqb c3 padChar && is_empty rest then
                let '(a, b, _) := join4 s0 s1 s2 zero in
                Some (String a (String b EmptyString))
              else None
          | None, _ =>
              if Ascii.eqb c2 padChar && Ascii.eqb c3 padChar && is_empty rest
              then
                let '(a, _, _) := join4 s0 s1 zero zero in
                Some (String a EmptyString)
              else None
          end
      | _, _ => None
      end
  | _ => None
  end.

(** [base64.StdEncoding.EncodeToString]. *)
Definition EncodeToString (src : list byte) : string :=
  encode (string_of_list_byte src).

(** [base64.StdEncoding.DecodeString]. On an error Go also returns the bytes
    decoded so far; every caller in this package drops them, and they are
    not modelled. *)
Definition DecodeString (s : string) : list byte * option error :=
  match decode (strip_newlines s) with
  | Some out => (list_byte_of_string out, None)
  | None => ([], Some CorruptInputError)
  end.

(** The characters of the encoding: letters, digits, [+], [/] and [=]. *)
Definition text_safe_char (c : ascii) : bool :=
  match decodeMap c with
  | Some _ => true
  | None => Ascii.eqb c padChar
  end.

Fixpoint text_safe (s : string) : bool :=
  match s with
  | EmptyString => true
  | String c s' => text_safe_char c && text_safe s'
  end.

End Base64.

(** ** Package sdk and the other collaborators

    [sdk.Variable], [sdk.VariableAudit], [sdk.Application] and [sdk.User] are
    declared in package [sdk]; the records below hold the fields this package
    reads and writes. [Variable] and [Type] are reserved words here, hence
    [Variable'] and [Type']. *)

(** [type VariableType string]: the source converts it with
    [string(variable.Type)]. *)
Definition VariableType : Type := string.

Record Variable' : Type := mkVariable {
  ID : Z;
  Name : string;
  Value : string;
  Type' : VariableType
}.

Record VariableAudit : Type := mkVariableAudit {
  VariableAudit_ID : Z;
  Versionned : Z;
  Variables : list Variable';
  Author : string
}.

Record Application : Type := mkApplication {
  Application_ID : Z;
  Application_Name : string
}.

Record User : Type := mkUser {
  Username : string
}.

(** [sql.NullString]: [Some s] is [{String: s, Valid: true}], [None] is the
    invalid value, which stands for NULL. *)
Definition NullString : Type := option string.

(** The zero value of [sdk.Variable]. *)
Definition zeroVariable : Variable' := mkVariable 0 "" "" "".

Definition set_Value (v : Variable') (value : string) : Variable' :=
  mkVariable (ID v) (Name v) value (Type' v).

(** What this package calls and does not define: the predicates and constants
    of package [sdk], the helpers of package [secret] and [encoding/json] on
    [[]sdk.Variable]. They are parameters of the development. *)
Record Env : Type := mkEnv {
  NeedPlaceholder : VariableType -> bool;
  VariableTypeFromString : string -> VariableType;
  PasswordPlaceholder : string;
  EncryptS : VariableType -> string -> NullString * list byte * option error;
  DecryptS : VariableType -> NullString -> list byte -> bool -> string * option error;
  Marshal : list Variable' -> list byte * option error;
  Unmarshal : list byte -> list Variable' * option error
}.

(** ** The relational store *)

Record ProjectRow : Type := mkProjectRow {
  project_id : Z;
  projectkey : string
}.

Record ApplicationRow : Type := mkApplicationRow {
  application_id : Z;
  application_name : string;
  application_project_id : Z;
  last_modified : Z
}.

(** [var_value] is nullable: the source scans it into a [sql.NullString].
    A NULL [cipher_value] scans into a nil [[]byte], the empty list. The
    other columns are never NULL: [var_name] is part of the key, and
    [var_type] is written as a string by every statement of the package. *)
Record VariableRow : Type := mkVariableRow {
  av_id : Z;
  av_application_id : Z;
  var_name : string;
  var_value : option string;
  cipher_value : list byte;
  var_type : string
}.

Record AuditRow : Type := mkAuditRow {
  audit_id : Z;
  versionned : Z;
  audit_application_id : Z;
  data : string;
  author : string
}.

Record Tables : Type := mkTables {
  project : list ProjectRow;
  application : list ApplicationRow;
  application_variable : list VariableRow;
  application_variable_audit : list AuditRow
}.

(** A database handle: the tables, the two identifier sequences, the clock
    that [NOW()] and [current_timestamp] read, and the outcome the driver has
    in store for the statements to come ([Some msg]: the statement fails with
    that message and changes nothing; [None], or nothing left: it runs, and
    its cursor delivers every row of the result). *)
Record DB : Type := mkDB {
  tables : Tables;
  application_variable_id_seq : Z;
  application_variable_audit_id_seq : Z;
  clock : Z;
  faults : list (option string)
}.

(** A statement reaches the driver: time passes and the next outcome is
    consumed. *)
Definition begin_stmt (db : DB) : DB * option error :=
  let db' := mkDB (tables db) (application_variable_id_seq db)
               (application_variable_audit_id_seq db) (clock db + 1)
               (tl (faults db)) in
  match faults db with
  | Some msg :: _ => (db', Some (ErrDriver msg))
  | _ => (db', None)
  end.

Definition set_tables (db : DB) (t : Tables) : DB :=
  mkDB t (application_variable_id_seq db) (application_variable_audit_id_seq db)
    (clock db) (faults db).

(** [ORDER BY]: a stable insertion sort. Names are compared byte by byte,
    the order of the [C] collation; the source names no collation, and under
    another one the rows of a listing come in another order. *)
Fixpoint insert_by {A : Type} (leb : A -> A -> bool) (x : A) (l : list A) : list A :=
  match l with
  | [] => [x]
  | y :: l' => if leb x y then x :: l else y :: insert_by leb x l'
  end.

Fixpoint order_by {A : Type} (leb : A -> A -> bool) (l : list A) : list A :=
  match l with
  | [] => []
  | x :: l' => insert_by leb x (order_by leb l')
  end.

(** [JOIN application ON application.id = $id
     JOIN project ON project.id = application.project_id
     WHERE application.name = $1 AND project.projectkey = $2]:
    the pairs the row of identifier [id] joins with. *)
Definition joined_owner (t : Tables) (id : Z) (appName key : string)
  : list (ApplicationRow * ProjectRow) :=
  flat_map
    (fun a =>
       if application_id a =? id then
         map (pair a)
           (filter (fun p => (project_id p =? application_project_id a)
                             && String.eqb (application_name a) appName
                             && String.eqb (projectkey p) key)
              (project t))
       else [])
    (application t).

(** The [SELECT] of [GetAllVariable]. *)
Definition select_variables_by_name (t : Tables) (appName key : string)
  : list VariableRow :=
  order_by (fun r1 r2 => String.leb (var_name r1) (var_name r2))
    (flat_map
       (fun v => map (fun _ => v) (joined_owner t (av_application_id v) appName key))
       (application_variable t)).

(** The [SELECT] of [GetAllVariableByID]. *)
Definition select_variables_by_id (t : Tables) (applicationID : Z)
  : list VariableRow :=
  order_by (fun r1 r2 => String.leb (var_name r1) (var_name r2))
    (filter (fun v => av_application_id v =? applicationID)
       (application_variable t)).

(** The [SELECT] of [LoadVariable]. *)
Definition select_variable (t : Tables) (appID : Z) (varName : string)
  : list VariableRow :=
  filter (fun v => (av_application_id v =? appID) && String.eqb (var_name v) varName)
    (application_variable t).

(** The [SELECT] of [GetVariableAudit]. *)
Definition select_audits (t : Tables) (appName key : string) : list AuditRow :=
  order_by (fun r1 r2 => versionned r2 <=? versionned r1)
    (flat_map
       (fun a => map (fun _ => a)
                   (joined_owner t (audit_application_id a) appName key))
       (application_variable_audit t)).

(** The [SELECT] of [GetAudit]. *)
Definition select_audit (t : Tables) (appName key : string) (auditID : Z)
  : list AuditRow :=
  order_by (fun r1 r2 => versionned r2 <=? versionned r1)
    (flat_map
       (fun a => if audit_id a =? auditID then
                   map (fun _ => a)
                     (joined_owner t (audit_application_id a) appName key)
                 else [])
       (application_variable_audit t)).

(** [db.Query]: the rows, or the error of the driver. The cursor of a query
    that runs delivers all its rows: a failure of [rows.Next()] midway,
    after which the loops of this package return what they have read with a
    nil error ([rows.Err()] is never read), is not an outcome of this store.
    A statement that needs the rows to be delivered says that the statement
    runs ([next_fault] below). *)
Definition Query {R : Type} (db : DB) (select : Tables -> list R)
  : DB * list R * option error :=
  let (db', err) := begin_stmt db in
  match err with
  | Some e => (db', [], Some e)
  | None => (db', select (tables db'), None)
  end.

(** [db.QueryRow(...).Scan]: the first row; [sql.ErrNoRows] when there is
    none. *)
Definition first_row {R : Type} (rows : list R) (err : option error) : R + error :=
  match err, rows with
  | Some e, _ => inr e
  | None, [] => inr ErrNoRows
  | None, r :: _ => inl r
  end.

(** [sql.Result]: the number of rows a statement changed. The driver's
    [RowsAffected] does not fail. *)
Definition Result : Type := Z.

Definition RowsAffected (r : Result) : Z * option error := (r, None).

Definition quote : string := String "034"%char EmptyString.

(** The name the source looks for in the error of an insert. *)
Definition application_variable_pkey : string := "application_variable_pkey".

(** Modelled from the spec: the uniqueness constraint of the storage layer on
    the names of the variables of one application (Invariant 1), whose
    declaration is not in this file; its violation is an error of the driver
    that names the constraint. *)
Definition unique_violation : error :=
  ErrDriver ("pq: duplicate key value violates unique constraint "
             ++ quote ++ application_variable_pkey ++ quote).

Definition has_variable (t : Tables) (applicationID : Z) (name : string) : bool :=
  existsb (fun v => (av_application_id v =? applicationID)
                    && String.eqb (var_name v) name)
    (application_variable t).

(** [INSERT INTO application_variable(application_id, var_name, var_value,
    cipher_value, var_type)]. The identifier comes from the sequence, which
    advances also when the constraint rejects the row. *)
Definition Exec_insert_variable (db : DB) (applicationID : Z) (name : string)
    (clear : NullString) (cipher : list byte) (type : string)
  : DB * Result * option error :=
  let (db', err) := begin_stmt db in
  match err with
  | Some e => (db', 0, Some e)
  | None =>
      let id := application_variable_id_seq db' in
      let t := tables db' in
      if has_variable t applicationID name then
        (mkDB t (id + 1) (application_variable_audit_id_seq db') (clock db')
           (faults db'), 0, Some unique_violation)
      else
        (mkDB (mkTables (project t) (application t)
                 (application_variable t
                  ++ [mkVariableRow id applicationID name clear cipher type])
                 (application_variable_audit t))
           (id + 1) (application_variable_audit_id_seq db') (clock db')
           (faults db'), 1, None)
  end.

(** [UPDATE application_variable SET var_value=$1, cipher_value=$2,
    var_type=$3 WHERE application_id = $4 AND var_name=$5]. *)
Definition Exec_update_variable (db : DB) (clear : NullString)
    (cipher : list byte) (type : string) (applicationID : Z) (name : string)
  : DB * Result * option error :=
  let (db', err) := begin_stmt db in
  match err with
  | Some e => (db', 0, Some e)
  | None =>
      let t := tables db' in
      let hit v := (av_application_id v =? applicationID)
                   && String.eqb (var_name v) name in
      (set_tables db'
         (mkTables (project t) (application t)
            (map (fun v => if hit v
                           then mkVariableRow (av_id v) (av_application_id v)
                                  (var_name v) clear cipher type
                           else v)
               (application_variable t))
            (application_variable_audit t)),
       Z.of_nat (List.length (filter hit (application_variable t))), None)
  end.

(** [DELETE FROM application_variable USING application
     WHERE application.id = $1 AND application_variable.var_name = $2]:
    a row of [application_variable] goes when some row of [application]
    makes the condition true with it. *)
Definition Exec_delete_variable (db : DB) (applicationID : Z) (name : string)
  : DB * Result * option error :=
  let (db', err) := begin_stmt db in
  match err with
  | Some e => (db', 0, Some e)
  | None =>
      let t := tables db' in
      let hit v := existsb (fun a => (application_id a =? applicationID)
                                     && String.eqb (var_name v) name)
                     (application t) in
      (set_tables db'
         (mkTables (project t) (application t)
            (filter (fun v => negb (hit v)) (application_variable t))
            (application_variable_audit t)),
       Z.of_nat (List.length (filter hit (application_variable t))), None)
  end.

(** [DELETE FROM application_variable
     WHERE application_variable.application_id = $1]. *)
Definition Exec_delete_all_variables (db : DB) (applicationID : Z)
  : DB * Result * option error :=
  let (db', err) := begin_stmt db in
  match err with
  | Some e => (db', 0, Some e)
  | None =>
      let t := tables db' in
      let hit v := av_application_id v =? applicationID in
      (set_tables db'
         (mkTables (project t) (application t)
            (filter (fun v => negb (hit v)) (application_variable t))
            (application_variable_audit t)),
       Z.of_nat (List.length (filter hit (application_variable t))), None)
  end.

(** [UPDATE application SET last_modified = current_timestamp WHERE id=$1]. *)
Definition Exec_touch_application (db : DB) (applicationID : Z)
  : DB * Result * option error :=
  let (db', err) := begin_stmt db in
  match err with
  | Some e => (db', 0, Some e)
  | None =>
      let t := tables db' in
      let hit a := application_id a =? applicationID in
      (set_tables db'
         (mkTables (project t)
            (map (fun a => if hit a
                           then mkApplicationRow (application_id a)
                                  (application_name a)
                                  (application_project_id a) (clock db')
                           else a)
               (application t))
            (application_variable t) (application_variable_audit t)),
       Z.of_nat (List.length (filter hit (application t))), None)
  end.

(** [INSERT INTO application_variable_audit (versionned, application_id,
    data, author) VALUES (NOW(), $1, $2, $3)]. *)
Definition Exec_insert_audit (db : DB) (applicationID : Z) (data author : string)
  : DB * Result * option error :=
  let (db', err) := begin_stmt db in
  match err with
  | Some e => (db', 0, Some e)
  | None =>
      let id := application_variable_audit_id_seq db' in
      let t := tables db' in
      (mkDB (mkTables (project t) (application t) (application_variable t)
               (application_variable_audit t
                ++ [mkAuditRow id (clock db') applicationID data author]))
         (application_variable_id_seq db') (id + 1) (clock db') (faults db'),
       1, None)
  end.

(** [Scan] into a [string]: a NULL cannot be stored there. The wording of the
    message depends on the version of [database/sql]. *)
Definition Scan_string (x : option string) : string * option error :=
  match x with
  | Some s => (s, None)
  | None => ("", Some (ErrScan "sql: Scan error: converting NULL to string is unsupported"))
  end.

(** [Scan] into a [sql.NullString]. *)
Definition Scan_NullString (x : option string) : NullString * option error :=
  (x, None).

(** ** Package application *)

Record structarg : Type := mkstructarg {
  clearsecret : bool;
  encryptsecret : bool
}.

(** [type FuncArg func(args *structarg)]: the argument is updated in place,
    here the updated value is returned. *)
Definition FuncArg : Type := structarg -> structarg.

Definition WithClearPassword : FuncArg :=
  fun args => mkstructarg true (encryptsecret args).

Definition WithEncryptPassword : FuncArg :=
  fun args => mkstructarg (clearsecret args) true.

(** [c := structarg{}; for _, f := range args { f(&c) }]. *)
Definition apply_args (args : list FuncArg) : structarg :=
  fold_left (fun c f => f c) args (mkstructarg false false).

(** [structarg] is not exported: the only values of [FuncArg] are the two
    options. *)
Definition is_option (f : FuncArg) : Prop :=
  f = WithClearPassword \/ f = WithEncryptPassword.

(** Modelled from the spec: [UpdateLastModified], declared in another file of
    the package; it bumps [last_modified] of the owning application, with the
    statement [DeleteAllVariable] below issues itself. *)
Definition UpdateLastModified (db : DB) (applicationID : Z) : DB * option error :=
  let '(db, _, err) := Exec_touch_application db applicationID in
  (db, err).

Section application.

Context (E : Env).

(** The loop of [GetAllVariable] over the rows. *)
Fixpoint GetAllVariable_rows (c : structarg) (rows : list VariableRow)
    (variables : list Variable') : list Variable' * option error :=
  match rows with
  | [] => (variables, None)
  | r :: rows' =>
      let '(clearVal, err) := Scan_NullString (var_value r) in
      match err with
      | Some e => ([], Some e)
      | None =>
          let cipherVal := cipher_value r in
          let v_Type := VariableTypeFromString E (var_type r) in
          let '(v_Value, err) :=
            if encryptsecret c && NeedPlaceholder E v_Type
            then (string_of_list_byte cipherVal, None)
            else DecryptS E v_Type clearVal cipherVal (clearsecret c) in
          match err with
          | Some e => ([], Some e)
          | None =>
              GetAllVariable_rows c rows'
                (variables ++ [mkVariable (av_id r) (var_name r) v_Value v_Type])
          end
      end
  end.

Definition GetAllVariable (db : DB) (key appName : string) (args : list FuncArg)
  : DB * list Variable' * option error :=
  let c := apply_args args in
  let '(db, rows, err) :=
    Query db (fun t => select_variables_by_name t appName key) in
  match err with
  | Some e => (db, [], Some e)
  | None =>
      let '(variables, err) := GetAllVariable_rows c rows [] in
      (db, variables, err)
  end.

(** The loop of [CreateAudit] over the variables. *)
Definition CreateAudit_encode (v : Variable') : Variable' :=
  if NeedPlaceholder E (Type' v)
  then set_Value v (Base64.EncodeToString (list_byte_of_string (Value v)))
  else v.

Definition CreateAudit (db : DB) (key : string) (app : Application) (u : User)
  : DB * option error :=
  let '(db, variables, err) :=
    GetAllVariable db key (Application_Name app) [WithEncryptPassword] in
  match err with
  | Some e => (db, Some e)
  | None =>
      let variables := map CreateAudit_encode variables in
      let '(data, err) := Marshal E variables in
      match err with
      | Some e => (db, Some e)
      | None =>
          let '(db, _, err) :=
            Exec_insert_audit db (Application_ID app) (string_of_list_byte data)
              (Username u) in
          (db, err)
      end
  end.

(** The loop of [GetAudit] over the variables; the first token that does not
    decode ends it. *)
Fixpoint GetAudit_decode (variables : list Variable')
  : list Variable' * option error :=
  match variables with
  | [] => ([], None)
  | v :: rest =>
      if NeedPlaceholder E (Type' v) then
        let '(decode, err) := Base64.DecodeString (Value v) in
        match err with
        | Some e => ([], Some e)
        | None =>
            let '(rest', err) := GetAudit_decode rest in
            match err with
            | Some e => ([], Some e)
            | None => (set_Value v (string_of_list_byte decode) :: rest', None)
            end
        end
      else
        let '(rest', err) := GetAudit_decode rest in
        match err with
        | Some e => ([], Some e)
        | None => (v :: rest', None)
        end
  end.

Definition GetAudit (db : DB) (key appName : string) (auditID : Z)
  : DB * list Variable' * option error :=
  let '(db, rows, err) :=
    Query db (fun t => select_audit t appName key auditID) in
  match first_row rows err with
  | inr e => (db, [], Some e)
  | inl r =>
      let '(variables, err) := Unmarshal E (list_byte_of_string (data r)) in
      let '(variables, err') := GetAudit_decode variables in
      match err' with
      | Some e => (db, [], Some e)
      | None => (db, variables, err)
      end
  end.

(** The placeholder a listing shows for a secret. *)
Definition redact (v : Variable') : Variable' :=
  if NeedPlaceholder E (Type' v) then set_Value v (PasswordPlaceholder E) else v.

(** The loop of [GetVariableAudit] over the rows. *)
Fixpoint GetVariableAudit_rows (rows : list AuditRow) (audits : list VariableAudit)
  : list VariableAudit * option error :=
  match rows with
  | [] => (audits, None)
  | r :: rows' =>
      let '(vars, err) := Unmarshal E (list_byte_of_string (data r)) in
      match err with
      | Some e => ([], Some e)
      | None =>
          GetVariableAudit_rows rows'
            (audits ++ [mkVariableAudit (audit_id r) (versionned r)
                          (map redact vars) (author r)])
      end
  end.

Definition GetVariableAudit (db : DB) (key appName : string)
  : DB * list VariableAudit * option error :=
  let '(db, rows, err) :=
    Query db (fun t => select_audits t appName key) in
  match err with
  | Some e => (db, [], Some e)
  | None =>
      let '(audits, err) := GetVariableAudit_rows rows [] in
      (db, audits, err)
  end.

(** [Scan(&v.ID, &v.Name, &v.Value, &v.Type)] stores column after column:
    when the third one fails the first two are already in [v]. *)
Definition LoadVariable (db : DB) (appID : Z) (varName : string)
  : DB * Variable' * option error :=
  let '(db, rows, err) :=
    Query db (fun t => select_variable t appID varName) in
  match first_row rows err with
  | inr e => (db, zeroVariable, Some e)
  | inl r =>
      let '(value, err) := Scan_string (var_value r) in
      match err with
      | Some e => (db, mkVariable (av_id r) (var_name r) "" "", Some e)
      | None =>
          let v := mkVariable (av_id r) (var_name r) value (var_type r) in
          if NeedPlaceholder E (Type' v)
          then (db, set_Value v (PasswordPlaceholder E), None)
          else (db, v, None)
      end
  end.

(** The loop of [GetAllVariableByID] over the rows. *)
Fixpoint GetAllVariableByID_rows (c : structarg) (rows : list VariableRow)
    (variables : list Variable') : list Variable' * option error :=
  match rows with
  | [] => (variables, None)
  | r :: rows' =>
      let '(clearVal, err) := Scan_NullString (var_value r) in
      match err with
      | Some e => ([], Some e)
      | None =>
          let cipherVal := cipher_value r in
          let v_Type := VariableTypeFromString E (var_type r) in
          let '(v_Value, err) :=
            DecryptS E v_Type clearVal cipherVal (clearsecret c) in
          match err with
          | Some e => ([], Some e)
          | None =>
              GetAllVariableByID_rows c rows'
                (variables ++ [mkVariable (av_id r) (var_name r) v_Value v_Type])
          end
      end
  end.

Definition GetAllVariableByID (db : DB) (applicationID : Z) (fargs : list FuncArg)
  : DB * list Variable' * option error :=
  let c := apply_args fargs in
  let '(db, rows, err) :=
    Query db (fun t => select_variables_by_id t applicationID) in
  match err with
  | Some e => (db, [], Some e)
  | None =>
      let '(variables, err) := GetAllVariableByID_rows c rows [] in
      (db, variables, err)
  end.

Definition InsertVariable (db : DB) (applicationID : Z) (variable : Variable')
  : DB * option error :=
  let '(clear, cipher, err) := EncryptS E (Type' variable) (Value variable) in
  match err with
  | Some e => (db, Some e)
  | None =>
      let '(db, _, err) :=
        Exec_insert_variable db applicationID (Name variable) clear cipher
          (Type' variable) in
      match err with
      | Some e =>
          if Contains (Error e) application_variable_pkey
          then (db, Some ErrVariableExists)
          else (db, Some e)
      | None => UpdateLastModified db applicationID
      end
  end.

Definition UpdateVariable (db : DB) (applicationID : Z) (variable : Variable')
  : DB * option error :=
  if NeedPlaceholder E (Type' variable)
     && String.eqb (Value variable) (PasswordPlaceholder E)
  then (db, None)
  else
    let '(clear, cipher, err) := EncryptS E (Type' variable) (Value variable) in
    match err with
    | Some e => (db, Some e)
    | None =>
        let '(db, result, err) :=
          Exec_update_variable db clear cipher (Type' variable) applicationID
            (Name variable) in
        match err with
        | Some e => (db, Some e)
        | None =>
            let '(rowAffected, err) := RowsAffected result in
            match err with
            | Some e => (db, Some e)
            | None =>
                if rowAffected =? 0 then (db, Some ErrNoVariable)
                else UpdateLastModified db applicationID
            end
        end
    end.

Definition DeleteVariable (db : DB) (applicationID : Z) (variableName : string)
  : DB * option error :=
  let '(db, result, err) := Exec_delete_variable db applicationID variableName in
  match err with
  | Some e => (db, Some e)
  | None =>
      let '(rowAffected, err) := RowsAffected result in
      match err with
      | Some e => (db, Some e)
      | None =>
          if rowAffected =? 0 then (db, Some ErrNoVariable)
          else UpdateLastModified db applicationID
      end
  end.

Definition DeleteAllVariable (db : DB) (applicationID : Z) : DB * option error :=
  let '(db, _, err) := Exec_delete_all_variables db applicationID in
  match err with
  | Some e => (db, Some e)
  | None =>
      let '(db, _, err) := Exec_touch_application db applicationID in
      (db, err)
  end.

End application.

(** ** A concrete environment

    An instance of [Env] and a small database, on which the statements below
    are run. Its secret kinds, placeholder and codec contract are the ones the
    specification gives; the cipher and the serialisation are stand-ins for
    the real ones. *)

Module Demo.

(** Modelled from the spec: [sdk.NeedPlaceholder], true on the kinds flagged
    secret; the kinds are the passwords and the keys. *)
Definition NeedPlaceholder (t : VariableType) : bool :=
  String.eqb t "password" || String.eqb t "key".

(** Modelled from the spec: [sdk.VariableTypeFromString], into the
    enumerated kinds, an unknown one being a plain string. *)
Definition VariableTypeFromString (s : string) : VariableType :=
  if String.eqb s "password" then "password"
  else if String.eqb s "key" then "key"
  else if String.eqb s "text" then "text"
  else if String.eqb s "boolean" then "boolean"
  else if String.eqb s "number" then "number"
  else "string".

(** Modelled from the spec: [sdk.PasswordPlaceholder], the sentinel of the
    scenario of section 8. *)
Definition PasswordPlaceholder : string := "**********".

(** A stand-in for the symmetric cipher: the bytes in reverse order behind a
    marker. *)
Fixpoint reverse (s : string) : string :=
  match s with
  | EmptyString => EmptyString
  | String c s' => reverse s' ++ String c EmptyString
  end.

Fixpoint drop (n : nat) (s : string) : string :=
  match n, s with
  | O, _ => s
  | S n', String _ s' => drop n' s'
  | S _, EmptyString => EmptyString
  end.

Definition Encrypt (plain : string) : list byte :=
  list_byte_of_string ("enc:" ++ reverse plain).

Definition Decrypt (cipher : list byte) : option string :=
  let s := string_of_list_byte cipher in
  if String.prefix "enc:" s then Some (reverse (drop 4 s)) else None.

(** Modelled from the spec: [secret.EncryptS] (section 4.1): a value that is
    not secret goes to the clear column, a secret to the cipher column. *)
Definition EncryptS (t : VariableType) (plaintext : string)
  : NullString * list byte * option error :=
  if NeedPlaceholder t then (None, Encrypt plaintext, None)
  else (Some plaintext, [], None).

(** Modelled from the spec: [secret.DecryptS] (section 4.1): the clear
    column for a kind that is not secret, the decrypted blob for a secret
    when the plaintext is wanted, and nothing usable otherwise: the
    placeholder. *)
Definition DecryptS (t : VariableType) (clearRepr : NullString)
    (cipherBlob : list byte) (wantPlaintext : bool) : string * option error :=
  if negb (NeedPlaceholder t) then
    (match clearRepr with Some s => s | None => "" end, None)
  else if wantPlaintext then
    match Decrypt cipherBlob with
    | Some plain => (plain, None)
    | None => ("", Some (ErrCodec "cannot decrypt"))
    end
  else (PasswordPlaceholder, None).

(** A serialisation in the shape of JSON: an array of objects with the
    fields [id], [name], [value] and [type]; in a string only the quote and
    the backslash are escaped. *)
Definition backslash : ascii := "092"%char.
Definition dquote : ascii := "034"%char.

Fixpoint escape (s : string) : string :=
  match s with
  | EmptyString => EmptyString
  | String c s' =>
      if Ascii.eqb c dquote || Ascii.eqb c backslash
      then String backslash (String c (escape s'))
      else String c (escape s')
  end.

Definition key (name : string) : string := quote ++ name ++ quote ++ ":".

Definition print_Variable (v : Variable') : string :=
  "{" ++ key "id" ++ NilZero.string_of_int (Z.to_int (ID v))
  ++ "," ++ key "name" ++ quote ++ escape (Name v) ++ quote
  ++ "," ++ key "value" ++ quote ++ escape (Value v) ++ quote
  ++ "," ++ key "type" ++ quote ++ escape (Type' v) ++ quote ++ "}".

Fixpoint print_Variables (vs : list Variable') : string :=
  match vs with
  | [] => ""
  | [v] => print_Variable v
  | v :: vs' => print_Variable v ++ "," ++ print_Variables vs'
  end.

Definition Marshal (vs : list Variable') : list byte * option error :=
  (list_byte_of_string ("[" ++ print_Variables vs ++ "]"), None).

Definition expect (p s : string) : option string :=
  if String.prefix p s then Some (drop (String.length p) s) else None.

(** The text of a string up to its closing quote, and what follows it. *)
Fixpoint parse_string (s : string) : option (string * string) :=
  match s with
  | EmptyString => None
  | String c s' =>
      if Ascii.eqb c dquote then Some (EmptyString, s')
      else if Ascii.eqb c backslash then
        match s' with
        | String d s'' =>
            match parse_string s'' with
            | Some (text, rest) => Some (String d text, rest)
            | None => None
            end
        | EmptyString => None
        end
      else
        match parse_string s' with
        | Some (text, rest) => Some (String c text, rest)
        | None => None
        end
  end.

Definition is_digit (c : ascii) : bool :=
  Ascii.eqb c "-" || ((48 <=? nat_of_ascii c)%nat && (nat_of_ascii c <=? 57)%nat).

Fixpoint parse_digits (s : string) : string * string :=
  match s with
  | EmptyString => (EmptyString, EmptyString)
  | String c s' =>
      if is_digit c then
        let (ds, rest) := parse_digits s' in (String c ds, rest)
      else (EmptyString, s)
  end.

Definition parse_Variable (s : string) : option (Variable' * string) :=
  match expect ("{" ++ key "id") s with
  | None => None
  | Some s =>
      let (ds, s) := parse_digits s in
      match NilZero.int_of_string ds, expect ("," ++ key "name" ++ quote) s with
      | Some id, Some s =>
          match parse_string s with
          | None => None
          | Some (name, s) =>
              match expect ("," ++ key "value" ++ quote) s with
              | None => None
              | Some s =>
                  match parse_string s with
                  | None => None
                  | Some (value, s) =>
                      match expect ("," ++ key "type" ++ quote) s with
                      | None => None
                      | Some s =>
                          match parse_string s with
                          | None => None
                          | Some (type, s) =>
                              match expect "}" s with
                              | None => None
                              | Some s =>
                                  Some (mkVariable (Z.of_int id) name value type, s)
                              end
                          end
                      end
                  end
              end
          end
      | _, _ => None
      end
  end.

Fixpoint parse_Variables (fuel : nat) (s : string) : option (list Variable') :=
  match fuel with
  | O => None
  | S fuel' =>
      match parse_Variable s with
      | None => None
      | Some (v, s) =>
          match s with
          | String "]" EmptyString => Some [v]
          | String "," s' =>
              match parse_Variables fuel' s' with
              | Some vs => Some (v :: vs)
              | None => None
              end
          | _ => None
          end
      end
  end.

Definition Unmarshal (data : list byte) : list Variable' * option error :=
  let s := string_of_list_byte data in
  if String.eqb s "[]" then ([], None)
  else
    match expect "[" s with
    | None => ([], Some (ErrJSON "invalid character looking for beginning of value"))
    | Some s =>
        match parse_Variables (String.length s) s with
        | Some vs => (vs, None)
        | None => ([], Some (ErrJSON "unexpected end of JSON input"))
        end
    end.

Definition env : Env :=
  mkEnv NeedPlaceholder VariableTypeFromString PasswordPlaceholder
    EncryptS DecryptS Marshal Unmarshal.

(** Project [PRJ] holds the applications [A] and [B]; each has a secret
    [DB_PASS], and [A] also the plain [ENV]. *)
Definition rows_A : list VariableRow :=
  [ mkVariableRow 1 1 "DB_PASS" None (Encrypt "s3cr3t") "password";
    mkVariableRow 2 1 "ENV" (Some "prod") [] "string" ].

Definition rows_B : list VariableRow :=
  [ mkVariableRow 3 2 "DB_PASS" None (Encrypt "hunter2") "password" ].

Definition t0 : Tables :=
  mkTables
    [ mkProjectRow 1 "PRJ" ]
    [ mkApplicationRow 1 "A" 1 0; mkApplicationRow 2 "B" 1 0 ]
    (rows_A ++ rows_B)
    [].

Definition db0 : DB := mkDB t0 4 1 10 [].

Definition app_A : Application := mkApplication 1 "A".

Definition alice : User := mkUser "alice".

(** A snapshot whose block is not a serialised collection. *)
Definition db_bad_block : DB :=
  mkDB (mkTables (project t0) (application t0) (application_variable t0)
          [ mkAuditRow 1 5 1 "[]" "alice"; mkAuditRow 2 6 1 "{oops" "alice" ])
    4 3 10 [].

End Demo.

(** ** Notions used in the statements *)

(** The outcome in store for the next statement: [None] when it runs and
    its rows are delivered. *)
Definition next_fault (db : DB) : option string :=
  match faults db with
  | Some msg :: _ => Some msg
  | _ => None
  end.

(** The handle once a statement that read or failed is over. *)
Definition after_stmt (db : DB) : DB := fst (begin_stmt db).

(** The text of a clear column. *)
Definition clear_text (c : NullString) : string :=
  match c with
  | Some s => s
  | None => ""
  end.

(** An error names the uniqueness constraint when the name of the constraint
    occurs somewhere in its text. *)
Definition names_constraint (e : error) : Prop :=
  exists before after : string,
    Error e = before ++ application_variable_pkey ++ after.

(** An error of the storage that is not a violation of the constraint and
    names it all the same: a damaged index. *)
Definition index_corrupted : string :=
  "pq: index " ++ quote ++ application_variable_pkey ++ quote
  ++ " contains unexpected zero page at block 0".

Section views.

Context (E : Env).

(** The kind a row is read as. *)
Definition row_type (r : VariableRow) : VariableType :=
  VariableTypeFromString E (var_type r).

(** What the listing [GetAllVariable] makes of one row under the options
    [c]. *)
Definition read_value (c : structarg) (r : VariableRow) : string * option error :=
  if encryptsecret c && NeedPlaceholder E (row_type r)
  then (string_of_list_byte (cipher_value r), None)
  else DecryptS E (row_type r) (var_value r) (cipher_value r) (clearsecret c).

Definition read_variable (c : structarg) (r : VariableRow) : Variable' :=
  mkVariable (av_id r) (var_name r) (fst (read_value c r)) (row_type r).

(** What [GetAllVariableByID] makes of one row. *)
Definition decrypt_value (c : structarg) (r : VariableRow) : string * option error :=
  DecryptS E (row_type r) (var_value r) (cipher_value r) (clearsecret c).

Definition decrypt_variable (c : structarg) (r : VariableRow) : Variable' :=
  mkVariable (av_id r) (var_name r) (fst (decrypt_value c r)) (row_type r).

(** An environment that differs in its [DecryptS] only. *)
Definition with_DecryptS
    (D : VariableType -> NullString -> list byte -> bool -> string * option error)
  : Env :=
  mkEnv (NeedPlaceholder E) (VariableTypeFromString E) (PasswordPlaceholder E)
    (EncryptS E) D (Marshal E) (Unmarshal E).

(** Modelled from the spec: the contract of [secret.DecryptS] on the kinds
    that are not secret (section 4.1): it always returns the clear
    representation. *)
Definition DecryptS_contract : Prop :=
  forall t clearRepr cipherBlob wantPlaintext,
    NeedPlaceholder E t = false ->
    DecryptS E t clearRepr cipherBlob wantPlaintext = (clear_text clearRepr, None).

(** What a listing of the snapshots makes of one row. *)
Definition redacted_audit (r : AuditRow) : VariableAudit :=
  mkVariableAudit (audit_id r) (versionned r)
    (map (redact E) (fst (Unmarshal E (list_byte_of_string (data r)))))
    (author r).

End views.

(** * Properties *)

(** ** Base64 *)

Example Base64_encode_foobar :
  Base64.encode "foobar" = "Zm9vYmFy" /\ Base64.encode "foob" = "Zm9vYg=="
  /\ Base64.encode "fooba" = "Zm9vYmE=".
Proof. repeat split; reflexivity. Qed.

Example Base64_decode_foob :
  Base64.decode "Zm9vYg==" = Some "foob" /\ Base64.decode "Zm9vYmE=" = Some "fooba"
  /\ Base64.decode "Zm9vYmFy" = Some "foobar" /\ Base64.decode "Zm9v=mFy" = None.
Proof. repeat split; reflexivity. Qed.

Module Base64Facts.
Import Base64.

Lemma decodeMap_encodeChar (b0 b1 b2 b3 b4 b5 : bool) :
  decodeMap (encodeChar (Ascii b0 b1 b2 b3 b4 b5 false false))
  = Some (Ascii b0 b1 b2 b3 b4 b5 false false).
Proof.
  destruct b0, b1, b2, b3, b4, b5; reflexivity.
Qed.

Lemma encodeChar_plain (b0 b1 b2 b3 b4 b5 : bool) :
  is_newline (encodeChar (Ascii b0 b1 b2 b3 b4 b5 false false)) = false.
Proof.
  destruct b0, b1, b2, b3, b4, b5; reflexivity.
Qed.

Lemma encodeChar_text_safe (b0 b1 b2 b3 b4 b5 : bool) :
  text_safe_char (encodeChar (Ascii b0 b1 b2 b3 b4 b5 false false)) = true.
Proof.
  unfold text_safe_char. now rewrite decodeMap_encodeChar.
Qed.

Lemma decodeMap_padChar : decodeMap padChar = None.
Proof. reflexivity. Qed.

(** Strings three bytes at a time. *)
Lemma string_ind3 (P : string -> Prop) :
  P EmptyString ->
  (forall a, P (String a EmptyString)) ->
  (forall a b, P (String a (String b EmptyString))) ->
  (forall a b c rest, P rest -> P (String a (String b (String c rest)))) ->
  forall s, P s.
Proof.
  intros H0 H1 H2 H3.
  fix IH 1.
  intros [|a [|b [|c rest]]];
    [exact H0 | apply H1 | apply H2 | apply H3, IH].
Qed.

Ltac bits a := destruct a as [? ? ? ? ? ? ? ?].

Lemma decode_encode (s : string) : decode (encode s) = Some s.
Proof.
  induction s as [|a|a b|a b c rest IH] using string_ind3.
  - reflexivity.
  - bits a. cbn [encode split3 zero decode].
    rewrite !decodeMap_encodeChar, decodeMap_padChar. reflexivity.
  - bits a. bits b. cbn [encode split3 zero decode].
    rewrite !decodeMap_encodeChar, decodeMap_padChar. reflexivity.
  - bits a. bits b. bits c. cbn [encode split3 decode].
    rewrite !decodeMap_encodeChar, IH. reflexivity.
Qed.

Lemma strip_newlines_encode (s : string) : strip_newlines (encode s) = encode s.
Proof.
  induction s as [|a|a b|a b c rest IH] using string_ind3.
  - reflexivity.
  - bits a. cbn [encode split3 zero strip_newlines].
    rewrite !encodeChar_plain. reflexivity.
  - bits a. bits b. cbn [encode split3 zero strip_newlines].
    rewrite !encodeChar_plain. reflexivity.
  - bits a. bits b. bits c. cbn [encode split3 strip_newlines].
    rewrite !encodeChar_plain, IH. reflexivity.
Qed.

Lemma text_safe_encode (s : string) : text_safe (encode s) = true.
Proof.
  induction s as [|a|a b|a b c rest IH] using string_ind3.
  - reflexivity.
  - bits a. cbn [encode split3 zero text_safe].
    rewrite !encodeChar_text_safe. reflexivity.
  - bits a. bits b. cbn [encode split3 zero text_safe].
    rewrite !encodeChar_text_safe. reflexivity.
  - bits a. bits b. bits c. cbn [encode split3 text_safe].
    rewrite !encodeChar_text_safe, IH. reflexivity.
Qed.

(** Decoding an encoding gives the bytes back. *)
Lemma DecodeString_EncodeToString (src : list byte) :
  DecodeString (EncodeToString src) = (src, None).
Proof.
  unfold DecodeString, EncodeToString.
  rewrite strip_newlines_encode, decode_encode.
  now rewrite list_byte_of_string_of_list_byte.
Qed.

Lemma text_safe_EncodeToString (src : list byte) :
  text_safe (EncodeToString src) = true.
Proof. apply text_safe_encode. Qed.

End Base64Facts.

(** ** The store *)

Lemma In_insert_by {A : Type} (leb : A -> A -> bool) (x y : A) (l : list A) :
  In y (insert_by leb x l) <-> y = x \/ In y l.
Proof.
  induction l as [|z l IH]; simpl.
  - intuition auto.
  - destruct (leb x z); simpl; rewrite ?IH; intuition auto.
Qed.

Lemma In_order_by {A : Type} (leb : A -> A -> bool) (y : A) (l : list A) :
  In y (order_by leb l) <-> In y l.
Proof.
  induction l as [|x l IH]; simpl.
  - reflexivity.
  - rewrite In_insert_by, IH. intuition auto.
Qed.

Lemma order_by_nil {A : Type} (leb : A -> A -> bool) (l : list A) :
  order_by leb l = [] -> l = [].
Proof.
  destruct l as [|x l]; [reflexivity|].
  intros H. exfalso.
  assert (Hin : In x (order_by leb (x :: l))) by (apply In_order_by; now left).
  rewrite H in Hin. exact Hin.
Qed.

Lemma after_stmt_eq (db : DB) :
  after_stmt db
  = mkDB (tables db) (application_variable_id_seq db)
      (application_variable_audit_id_seq db) (clock db + 1) (tl (faults db)).
Proof. unfold after_stmt, begin_stmt. now destruct (faults db) as [|[m|] fs]. Qed.

Lemma tables_after_stmt (db : DB) : tables (after_stmt db) = tables db.
Proof. unfold after_stmt, begin_stmt. now destruct (faults db) as [|[m|] fs]. Qed.

Lemma begin_stmt_ok (db : DB) :
  next_fault db = None -> begin_stmt db = (after_stmt db, None).
Proof.
  unfold next_fault, after_stmt, begin_stmt.
  destruct (faults db) as [|[m|] fs]; simpl; congruence.
Qed.

Lemma begin_stmt_fault (db : DB) (msg : string) :
  next_fault db = Some msg -> begin_stmt db = (after_stmt db, Some (ErrDriver msg)).
Proof.
  unfold next_fault, after_stmt, begin_stmt.
  destruct (faults db) as [|[m|] fs]; simpl; congruence.
Qed.

Lemma begin_stmt_cases (db : DB) :
  begin_stmt db = (after_stmt db, option_map ErrDriver (next_fault db)).
Proof.
  destruct (next_fault db) as [msg|] eqn:H.
  - now apply begin_stmt_fault.
  - now apply begin_stmt_ok.
Qed.

Lemma Query_ok {R : Type} (db : DB) (select : Tables -> list R) :
  next_fault db = None -> Query db select = (after_stmt db, select (tables db), None).
Proof.
  intros H. unfold Query. rewrite (begin_stmt_ok db H).
  now rewrite tables_after_stmt.
Qed.

Lemma Query_fault {R : Type} (db : DB) (select : Tables -> list R) (msg : string) :
  next_fault db = Some msg ->
  Query db select = (after_stmt db, [], Some (ErrDriver msg)).
Proof.
  intros H. unfold Query. now rewrite (begin_stmt_fault db msg H).
Qed.

Lemma Query_inv {R : Type} (db db' : DB) (select : Tables -> list R) rows :
  Query db select = (db', rows, None) ->
  next_fault db = None /\ db' = after_stmt db /\ rows = select (tables db).
Proof.
  destruct (next_fault db) as [msg|] eqn:H.
  - rewrite (Query_fault db select msg H). discriminate.
  - rewrite (Query_ok db select H). intros [= <- <-]. auto.
Qed.

(** ** The loops over the rows *)

Section loops.

Context (E : Env).

Lemma GetAllVariable_rows_step c r rows acc :
  GetAllVariable_rows E c (r :: rows) acc =
  match read_value E c r with
  | (_, Some e) => ([], Some e)
  | (_, None) => GetAllVariable_rows E c rows (acc ++ [read_variable E c r])
  end.
Proof.
  unfold read_variable, read_value, row_type. cbn.
  destruct (encryptsecret c && NeedPlaceholder E (VariableTypeFromString E (var_type r))).
  - reflexivity.
  - now destruct (DecryptS E _ _ _ _) as [val [e|]].
Qed.

Lemma GetAllVariable_rows_ok c rows : forall acc,
  Forall (fun r => snd (read_value E c r) = None) rows ->
  GetAllVariable_rows E c rows acc = ((acc ++ map (read_variable E c) rows)%list, None).
Proof.
  induction rows as [|r rows IH]; intros acc H.
  - simpl. now rewrite app_nil_r.
  - inversion H as [|? ? Hr Hrows]; subst.
    rewrite GetAllVariable_rows_step.
    destruct (read_value E c r) as [val err]; simpl in Hr; subst err.
    rewrite IH by assumption. now rewrite <- app_assoc.
Qed.

Lemma GetAllVariable_rows_inv c rows : forall acc vars,
  GetAllVariable_rows E c rows acc = (vars, None) ->
  Forall (fun r => snd (read_value E c r) = None) rows
  /\ vars = (acc ++ map (read_variable E c) rows)%list.
Proof.
  induction rows as [|r rows IH]; intros acc vars H.
  - simpl in H. injection H as <-. split; [constructor|now rewrite app_nil_r].
  - rewrite GetAllVariable_rows_step in H.
    destruct (read_value E c r) as [val [e|]] eqn:Hr; [discriminate|].
    apply IH in H. destruct H as [Hall ->]. split.
    + constructor; [now rewrite Hr|assumption].
    + now rewrite <- app_assoc.
Qed.

Lemma GetAllVariableByID_rows_step c r rows acc :
  GetAllVariableByID_rows E c (r :: rows) acc =
  match decrypt_value E c r with
  | (_, Some e) => ([], Some e)
  | (_, None) => GetAllVariableByID_rows E c rows (acc ++ [decrypt_variable E c r])
  end.
Proof.
  unfold decrypt_variable, decrypt_value, row_type. cbn.
  now destruct (DecryptS E _ _ _ _) as [val [e|]].
Qed.

Lemma GetAllVariableByID_rows_inv c rows : forall acc vars,
  GetAllVariableByID_rows E c rows acc = (vars, None) ->
  Forall (fun r => snd (decrypt_value E c r) = None) rows
  /\ vars = (acc ++ map (decrypt_variable E c) rows)%list.
Proof.
  induction rows as [|r rows IH]; intros acc vars H.
  - simpl in H. injection H as <-. split; [constructor|now rewrite app_nil_r].
  - rewrite GetAllVariableByID_rows_step in H.
    destruct (decrypt_value E c r) as [val [e|]] eqn:Hr; [discriminate|].
    apply IH in H. destruct H as [Hall ->]. split.
    + constructor; [now rewrite Hr|assumption].
    + now rewrite <- app_assoc.
Qed.

(** [GetAllVariableByID] reads one field of its options. *)
Lemma GetAllVariableByID_rows_clearsecret c c' rows : forall acc,
  clearsecret c = clearsecret c' ->
  GetAllVariableByID_rows E c rows acc = GetAllVariableByID_rows E c' rows acc.
Proof.
  intros acc Hc. revert acc.
  induction rows as [|r rows IH]; intros acc; [reflexivity|].
  rewrite !GetAllVariableByID_rows_step.
  unfold decrypt_variable, decrypt_value. rewrite Hc.
  destruct (DecryptS E _ _ _ _) as [val [e|]]; [reflexivity|apply IH].
Qed.

Lemma GetVariableAudit_rows_step r rows acc :
  GetVariableAudit_rows E (r :: rows) acc =
  match snd (Unmarshal E (list_byte_of_string (data r))) with
  | Some e => ([], Some e)
  | None => GetVariableAudit_rows E rows (acc ++ [redacted_audit E r])
  end.
Proof.
  unfold redacted_audit. cbn.
  now destruct (Unmarshal E _) as [vars [e|]].
Qed.

Lemma GetVariableAudit_rows_inv rows : forall acc audits,
  GetVariableAudit_rows E rows acc = (audits, None) ->
  Forall (fun r => snd (Unmarshal E (list_byte_of_string (data r))) = None) rows
  /\ audits = (acc ++ map (redacted_audit E) rows)%list.
Proof.
  induction rows as [|r rows IH]; intros acc audits H.
  - simpl in H. injection H as <-. split; [constructor|now rewrite app_nil_r].
  - rewrite GetVariableAudit_rows_step in H.
    destruct (snd (Unmarshal E _)) as [e|] eqn:Hr; [discriminate|].
    apply IH in H. destruct H as [Hall ->]. split.
    + constructor; assumption.
    + now rewrite <- app_assoc.
Qed.

(** One block that does not deserialise empties the listing. *)
Lemma GetVariableAudit_rows_malformed rows : forall acc,
  Exists (fun r => snd (Unmarshal E (list_byte_of_string (data r))) <> None) rows ->
  exists e, GetVariableAudit_rows E rows acc = ([], Some e).
Proof.
  induction rows as [|r rows IH]; intros acc H.
  - inversion H.
  - rewrite GetVariableAudit_rows_step.
    destruct (snd (Unmarshal E _)) as [e|] eqn:Hr.
    + now exists e.
    + apply IH. inversion H; subst; [congruence|assumption].
Qed.

Lemma Type'_set_Value v value : Type' (set_Value v value) = Type' v.
Proof. reflexivity. Qed.

Lemma redact_secret v :
  NeedPlaceholder E (Type' (redact E v)) = true ->
  Value (redact E v) = PasswordPlaceholder E.
Proof.
  unfold redact. destruct (NeedPlaceholder E (Type' v)) eqn:H; simpl; congruence.
Qed.

(** Decoding undoes the encoding of a snapshot, entry by entry. *)
Lemma GetAudit_decode_encode (vars : list Variable') :
  GetAudit_decode E (map (CreateAudit_encode E) vars) = (vars, None).
Proof.
  induction vars as [|v vars IH]; [reflexivity|].
  cbn [map GetAudit_decode]. rewrite IH.
  unfold CreateAudit_encode.
  destruct (NeedPlaceholder E (Type' v)) eqn:H.
  - rewrite Type'_set_Value, H. cbn [Value set_Value].
    rewrite Base64Facts.DecodeString_EncodeToString.
    rewrite string_of_list_byte_of_string. now destruct v.
  - now rewrite H.
Qed.

End loops.

(** ** The options of a listing *)

Lemma apply_args_app (args1 args2 : list FuncArg) :
  apply_args (args1 ++ args2) = fold_left (fun c f => f c) args2 (apply_args args1).
Proof. unfold apply_args. apply fold_left_app. Qed.

Lemma clearsecret_options (fs : list FuncArg) : forall c c',
  Forall is_option fs ->
  clearsecret c = clearsecret c' ->
  clearsecret (fold_left (fun c f => f c) fs c)
  = clearsecret (fold_left (fun c f => f c) fs c').
Proof.
  induction fs as [|f fs IH]; intros c c' Hfs Hc; [exact Hc|].
  inversion Hfs as [|? ? Hf Hfs']; subst. simpl. apply IH; [assumption|].
  destruct Hf as [-> | ->]; simpl; congruence.
Qed.

Lemma encryptsecret_kept (fs : list FuncArg) : forall c,
  Forall is_option fs ->
  encryptsecret c = true ->
  encryptsecret (fold_left (fun c f => f c) fs c) = true.
Proof.
  induction fs as [|f fs IH]; intros c Hfs Hc; [exact Hc|].
  inversion Hfs as [|? ? Hf Hfs']; subst. simpl. apply IH; [assumption|].
  destruct Hf as [-> | ->]; simpl; congruence.
Qed.

Lemma encryptsecret_set (fs : list FuncArg) : forall c,
  Forall is_option fs ->
  In WithEncryptPassword fs ->
  encryptsecret (fold_left (fun c f => f c) fs c) = true.
Proof.
  induction fs as [|f fs IH]; intros c Hfs Hin; [destruct Hin|].
  inversion Hfs as [|? ? Hf Hfs']; subst. simpl.
  destruct Hin as [-> | Hin].
  - now apply encryptsecret_kept.
  - now apply IH.
Qed.

Lemma Forall2_map_r {A B : Type} (P : A -> B -> Prop) (f : A -> B) (l : list A) :
  Forall (fun a => P a (f a)) l -> Forall2 P l (map f l).
Proof.
  induction 1; simpl; constructor; assumption.
Qed.

(** ** The variable store *)

(** C4. Sentinel update is a no-op: [UpdateVariable] called for a secret-kind
    variable whose value is the redaction sentinel returns success and hands
    back the database handle it was given: no statement is issued, so the
    clear and cipher columns, the kind of the stored variable and
    [last_modified] of the owning application are what they were. *)
Theorem UpdateVariable_sentinel_is_noop (E : Env) (db : DB) (applicationID : Z)
    (variable : Variable') :
  NeedPlaceholder E (Type' variable) = true ->
  Value variable = PasswordPlaceholder E ->
  UpdateVariable E db applicationID variable = (db, None).
Proof.
  intros Hsecret Hvalue. unfold UpdateVariable.
  now rewrite Hsecret, Hvalue, String.eqb_refl.
Qed.

Lemma UpdateVariable_sentinel_is_noop_witness :
  UpdateVariable Demo.env Demo.db0 1
    (mkVariable 1 "DB_PASS" "**********" "password") = (Demo.db0, None).
Proof.
  apply (UpdateVariable_sentinel_is_noop Demo.env Demo.db0 1
           (mkVariable 1 "DB_PASS" "**********" "password")); reflexivity.
Defined.

(** C8. [GetAllVariableByID] ignores the encrypted-token option: an argument
    list with [WithEncryptPassword] in it gives the result of the list
    without it; and in every successful result the value of each variable,
    secret or not, is what [DecryptS] returned for its row, never the cipher
    column converted as it is. *)
Theorem GetAllVariableByID_ignores_WithEncryptPassword (E : Env) (db : DB)
    (applicationID : Z) (fargs1 fargs2 : list FuncArg) :
  Forall is_option fargs2 ->
  GetAllVariableByID E db applicationID (fargs1 ++ WithEncryptPassword :: fargs2)
  = GetAllVariableByID E db applicationID (fargs1 ++ fargs2)
  /\ forall db' variables,
       GetAllVariableByID E db applicationID (fargs1 ++ WithEncryptPassword :: fargs2)
       = (db', variables, None) ->
       Forall2
         (fun r v =>
            DecryptS E (VariableTypeFromString E (var_type r)) (var_value r)
              (cipher_value r) (clearsecret (apply_args (fargs1 ++ fargs2)))
            = (Value v, None))
         (select_variables_by_id (tables db) applicationID) variables.
Proof.
  intros Hopts.
  assert (Hc : clearsecret (apply_args (fargs1 ++ WithEncryptPassword :: fargs2))
               = clearsecret (apply_args (fargs1 ++ fargs2))).
  { rewrite !apply_args_app. simpl. now apply clearsecret_options. }
  assert (Heq : GetAllVariableByID E db applicationID
                  (fargs1 ++ WithEncryptPassword :: fargs2)
                = GetAllVariableByID E db applicationID (fargs1 ++ fargs2)).
  { unfold GetAllVariableByID.
    destruct (Query db _) as [[db1 rows] [e|]]; [reflexivity|].
    now rewrite (GetAllVariableByID_rows_clearsecret E _ _ rows [] Hc). }
  split; [exact Heq|].
  intros db' variables H. rewrite Heq in H. unfold GetAllVariableByID in H.
  destruct (Query db _) as [[db1 rows] [e|]] eqn:HQ; [discriminate|].
  apply Query_inv in HQ. destruct HQ as (_ & _ & ->).
  destruct (GetAllVariableByID_rows E _ _ _) as [vars err] eqn:Hrows.
  injection H as _ <- ->.
  apply GetAllVariableByID_rows_inv in Hrows. destruct Hrows as [Hall ->].
  simpl. apply Forall2_map_r.
  eapply Forall_impl; [|exact Hall].
  intros r Hr. unfold decrypt_variable, decrypt_value, row_type in *.
  destruct (DecryptS E _ _ _ _) as [val err]. simpl in *. now subst.
Qed.

Lemma GetAllVariableByID_ignores_WithEncryptPassword_witness :
  GetAllVariableByID Demo.env Demo.db0 1 ([] ++ WithEncryptPassword :: [WithClearPassword])
  = GetAllVariableByID Demo.env Demo.db0 1 ([] ++ [WithClearPassword]).
Proof.
  apply (GetAllVariableByID_ignores_WithEncryptPassword Demo.env Demo.db0 1 []
           [WithClearPassword]).
  constructor; [left; reflexivity|constructor].
Defined.

Lemma GetAllVariable_inv (E : Env) (db db' : DB) (key appName : string)
    (args : list FuncArg) (variables : list Variable') :
  GetAllVariable E db key appName args = (db', variables, None) ->
  next_fault db = None /\ db' = after_stmt db
  /\ Forall (fun r => snd (read_value E (apply_args args) r) = None)
       (select_variables_by_name (tables db) appName key)
  /\ variables = map (read_variable E (apply_args args))
                   (select_variables_by_name (tables db) appName key).
Proof.
  unfold GetAllVariable. intros H.
  destruct (Query db _) as [[db1 rows] [e|]] eqn:HQ; [discriminate|].
  apply Query_inv in HQ. destruct HQ as (Hf & -> & ->).
  destruct (GetAllVariable_rows E _ _ _) as [vars err] eqn:Hrows.
  injection H as <- <- ->.
  apply GetAllVariable_rows_inv in Hrows. destruct Hrows as [Hall ->].
  auto.
Qed.

Lemma GetAllVariable_ok (E : Env) (db : DB) (key appName : string)
    (args : list FuncArg) :
  next_fault db = None ->
  Forall (fun r => snd (read_value E (apply_args args) r) = None)
    (select_variables_by_name (tables db) appName key) ->
  GetAllVariable E db key appName args
  = (after_stmt db,
     map (read_variable E (apply_args args))
       (select_variables_by_name (tables db) appName key), None).
Proof.
  intros Hf Hall. unfold GetAllVariable.
  rewrite (Query_ok db _ Hf).
  now rewrite (GetAllVariable_rows_ok E _ _ [] Hall).
Qed.

(** C10. Mode precedence in [GetAllVariable]: when both [WithClearPassword]
    and [WithEncryptPassword] are among the options, and the statement
    reaches the store, the listing succeeds and the value of every
    secret-kind variable is the cipher column of its row converted as it is;
    the value of a variable that is not secret is its clear column, and is so
    under any options at all. [DecryptS] is taken to meet its contract on the
    kinds that are not secret. *)
Theorem GetAllVariable_encrypt_mode_takes_precedence (E : Env) (db : DB)
    (key appName : string) (args : list FuncArg) :
  DecryptS_contract E ->
  Forall is_option args ->
  In WithClearPassword args ->
  In WithEncryptPassword args ->
  (next_fault db = None ->
   GetAllVariable E db key appName args
   = (after_stmt db,
      map (fun r =>
             let t := VariableTypeFromString E (var_type r) in
             mkVariable (av_id r) (var_name r)
               (if NeedPlaceholder E t
                then string_of_list_byte (cipher_value r)
                else clear_text (var_value r))
               t)
        (select_variables_by_name (tables db) appName key),
      None))
  /\ forall args' db' variables,
       GetAllVariable E db key appName args' = (db', variables, None) ->
       Forall2
         (fun r v =>
            NeedPlaceholder E (Type' v) = false ->
            Value v = clear_text (var_value r))
         (select_variables_by_name (tables db) appName key) variables.
Proof.
  intros Hcontract Hopts _ Hencrypt.
  assert (Hflag : encryptsecret (apply_args args) = true)
    by (now apply encryptsecret_set).
  split.
  - intros Hf.
    assert (Hrow : forall r, read_value E (apply_args args) r
                   = (if NeedPlaceholder E (VariableTypeFromString E (var_type r))
                      then string_of_list_byte (cipher_value r)
                      else clear_text (var_value r), None)).
    { intros r. unfold read_value, row_type. rewrite Hflag. simpl.
      destruct (NeedPlaceholder E _) eqn:Hs; [reflexivity|].
      now apply Hcontract. }
    rewrite GetAllVariable_ok; trivial.
    + f_equal. f_equal. apply map_ext. intros r.
      unfold read_variable. now rewrite Hrow.
    + apply Forall_forall. intros r _. now rewrite Hrow.
  - intros args' db' variables H.
    apply GetAllVariable_inv in H. destruct H as (_ & _ & _ & ->).
    apply Forall2_map_r, Forall_forall. intros r _.
    unfold read_variable, read_value, row_type. simpl. intros Hs.
    rewrite Hs, andb_false_r. now rewrite Hcontract.
Qed.

Lemma Demo_DecryptS_contract : DecryptS_contract Demo.env.
Proof.
  intros t c b w H. simpl in *. unfold Demo.DecryptS. now rewrite H.
Qed.

Lemma GetAllVariable_encrypt_mode_takes_precedence_witness :
  GetAllVariable Demo.env Demo.db0 "PRJ" "A" [WithClearPassword; WithEncryptPassword]
  = (after_stmt Demo.db0,
     [ mkVariable 1 "DB_PASS" "enc:t3rc3s" "password";
       mkVariable 2 "ENV" "prod" "string" ], None).
Proof.
  apply (GetAllVariable_encrypt_mode_takes_precedence Demo.env Demo.db0 "PRJ" "A"
           [WithClearPassword; WithEncryptPassword]).
  - exact Demo_DecryptS_contract.
  - constructor; [left; reflexivity|].
    constructor; [right; reflexivity|constructor].
  - left; reflexivity.
  - right; left; reflexivity.
  - reflexivity.
Defined.

(** ** The audit trail: listing *)

Lemma In_select_audits (t : Tables) (appName key : string) (r : AuditRow) :
  In r (select_audits t appName key) <->
  In r (application_variable_audit t)
  /\ joined_owner t (audit_application_id r) appName key <> [].
Proof.
  unfold select_audits. rewrite In_order_by, in_flat_map. split.
  - intros (a & Ha & Hin). apply in_map_iff in Hin.
    destruct Hin as (o & <- & Ho). split; [assumption|].
    intros Hnil. rewrite Hnil in Ho. exact Ho.
  - intros [Hr Hown]. exists r. split; [assumption|].
    destruct (joined_owner t _ _ _) as [|o os]; [congruence|]. now left.
Qed.

Lemma select_audits_none (t : Tables) (appName key : string) :
  Forall (fun a => joined_owner t (audit_application_id a) appName key = [])
    (application_variable_audit t) ->
  select_audits t appName key = [].
Proof.
  intros H. destruct (select_audits t appName key) as [|r rows] eqn:Hsel;
    [reflexivity|].
  assert (Hin : In r (select_audits t appName key)) by (rewrite Hsel; now left).
  apply In_select_audits in Hin. destruct Hin as [Hr Hown].
  rewrite Forall_forall in H. now apply H in Hr.
Qed.

Lemma GetVariableAudit_inv (E : Env) (db db' : DB) (key appName : string)
    (audits : list VariableAudit) :
  GetVariableAudit E db key appName = (db', audits, None) ->
  audits = map (redacted_audit E) (select_audits (tables db) appName key).
Proof.
  unfold GetVariableAudit. intros H.
  destruct (Query db _) as [[db1 rows] [e|]] eqn:HQ; [discriminate|].
  apply Query_inv in HQ. destruct HQ as (_ & _ & ->).
  destruct (GetVariableAudit_rows E _ _) as [as' err] eqn:Hrows.
  injection H as _ <- ->.
  apply GetVariableAudit_rows_inv in Hrows. now destruct Hrows as [_ ->].
Qed.

Lemma GetVariableAudit_rows_ok (E : Env) (rows : list AuditRow) : forall acc,
  Forall (fun r => snd (Unmarshal E (list_byte_of_string (data r))) = None) rows ->
  GetVariableAudit_rows E rows acc = ((acc ++ map (redacted_audit E) rows)%list, None).
Proof.
  induction rows as [|r rows IH]; intros acc H.
  - simpl. now rewrite app_nil_r.
  - inversion H as [|? ? Hr Hrows]; subst.
    rewrite GetVariableAudit_rows_step, Hr, IH by assumption.
    now rewrite <- app_assoc.
Qed.

Lemma map_redact_tokens (E : Env) (vs vs' : list Variable') :
  Forall2 (fun v v' => ID v = ID v' /\ Name v = Name v' /\ Type' v = Type' v'
                       /\ (NeedPlaceholder E (Type' v) = false -> Value v = Value v'))
    vs vs' ->
  map (redact E) vs = map (redact E) vs'.
Proof.
  induction 1 as [|v v' vs vs' (Hid & Hname & Htype & Hvalue) _ IH]; simpl;
    [reflexivity|].
  rewrite IH. f_equal. unfold redact. rewrite <- Htype.
  destruct (NeedPlaceholder E (Type' v)) eqn:Hs.
  - unfold set_Value. now rewrite Hid, Hname, Htype.
  - destruct v, v'. simpl in *. rewrite Hvalue by reflexivity. congruence.
Qed.

(** Rows that differ in the tokens of their secrets only are listed alike. *)
Lemma GetVariableAudit_rows_tokens (E : Env) (rows rows' : list AuditRow) :
  Forall2
    (fun r r' =>
       audit_id r = audit_id r' /\ versionned r = versionned r'
       /\ author r = author r'
       /\ snd (Unmarshal E (list_byte_of_string (data r)))
          = snd (Unmarshal E (list_byte_of_string (data r')))
       /\ Forall2
            (fun v v' => ID v = ID v' /\ Name v = Name v' /\ Type' v = Type' v'
                         /\ (NeedPlaceholder E (Type' v) = false ->
                             Value v = Value v'))
            (fst (Unmarshal E (list_byte_of_string (data r))))
            (fst (Unmarshal E (list_byte_of_string (data r')))))
    rows rows' ->
  forall acc, GetVariableAudit_rows E rows acc = GetVariableAudit_rows E rows' acc.
Proof.
  induction 1 as [|r r' rows rows' (Hid & Htime & Hauthor & Herr & Hvars) _ IH];
    intros acc; [reflexivity|].
  rewrite !GetVariableAudit_rows_step, <- Herr.
  destruct (snd (Unmarshal E (list_byte_of_string (data r)))); [reflexivity|].
  unfold redacted_audit.
  now rewrite Hid, Htime, Hauthor, (map_redact_tokens E _ _ Hvars), IH.
Qed.

(** C6. Listing the snapshots never exposes a secret. When the statement runs
    and the blocks of the owner's snapshots deserialise, [GetVariableAudit]
    returns one snapshot for every stored snapshot of the owner, in the order
    of the query, under its identifier, time and author, and one variable for
    every entry of its block: the entry as it is stored, but for the value of
    a secret kind, which is the redaction sentinel whatever token is stored.
    The snapshots the query selects are the stored ones of the application of
    that name in that project. In every result, whatever was read, a
    secret-kind entry has the sentinel as its value. The tokens are not looked
    at: two stores whose snapshots differ in the values of secret-kind
    entries only, be they valid base64 or not, are listed alike. And when the
    owner has no snapshot the result is the empty sequence and no error. *)
Theorem GetVariableAudit_never_exposes_secrets (E : Env) (db : DB)
    (key appName : string) :
  (next_fault db = None ->
   Forall (fun r => snd (Unmarshal E (list_byte_of_string (data r))) = None)
     (select_audits (tables db) appName key) ->
   exists audits,
     GetVariableAudit E db key appName = (after_stmt db, audits, None)
     /\ Forall2
          (fun r audit =>
             VariableAudit_ID audit = audit_id r
             /\ Versionned audit = versionned r
             /\ Author audit = author r
             /\ Forall2
                  (fun stored v =>
                     v = mkVariable (ID stored) (Name stored)
                           (if NeedPlaceholder E (Type' stored)
                            then PasswordPlaceholder E
                            else Value stored)
                           (Type' stored))
                  (fst (Unmarshal E (list_byte_of_string (data r))))
                  (Variables audit))
          (select_audits (tables db) appName key) audits)
  /\ (forall r,
        In r (select_audits (tables db) appName key)
        <-> In r (application_variable_audit (tables db))
            /\ joined_owner (tables db) (audit_application_id r) appName key <> [])
  /\ (forall db' audits,
        GetVariableAudit E db key appName = (db', audits, None) ->
        Forall
          (fun audit =>
             Forall (fun v => NeedPlaceholder E (Type' v) = true ->
                              Value v = PasswordPlaceholder E)
               (Variables audit))
          audits)
  /\ (forall db2,
        next_fault db = None ->
        next_fault db2 = None ->
        Forall2
          (fun r r' =>
             audit_id r = audit_id r' /\ versionned r = versionned r'
             /\ author r = author r'
             /\ snd (Unmarshal E (list_byte_of_string (data r)))
                = snd (Unmarshal E (list_byte_of_string (data r')))
             /\ Forall2
                  (fun v v' =>
                     ID v = ID v' /\ Name v = Name v' /\ Type' v = Type' v'
                     /\ (NeedPlaceholder E (Type' v) = false ->
                         Value v = Value v'))
                  (fst (Unmarshal E (list_byte_of_string (data r))))
                  (fst (Unmarshal E (list_byte_of_string (data r')))))
          (select_audits (tables db) appName key)
          (select_audits (tables db2) appName key) ->
        snd (fst (GetVariableAudit E db key appName))
        = snd (fst (GetVariableAudit E db2 key appName))
        /\ snd (GetVariableAudit E db key appName)
           = snd (GetVariableAudit E db2 key appName))
  /\ (Forall
        (fun a => joined_owner (tables db) (audit_application_id a) appName key = [])
        (application_variable_audit (tables db)) ->
      next_fault db = None ->
      GetVariableAudit E db key appName = (after_stmt db, [], None)).
Proof.
  split; [|split; [|split; [|split]]].
  - intros Hf Hok. eexists. split.
    + unfold GetVariableAudit. rewrite (Query_ok db _ Hf).
      rewrite (GetVariableAudit_rows_ok E _ [] Hok). reflexivity.
    + simpl. apply Forall2_map_r, Forall_forall. intros r _.
      unfold redacted_audit. simpl. repeat split.
      apply Forall2_map_r, Forall_forall. intros v _.
      unfold redact, set_Value.
      destruct (NeedPlaceholder E (Type' v)); [reflexivity|now destruct v].
  - intros r. apply In_select_audits.
  - intros db' audits H. apply GetVariableAudit_inv in H. subst audits.
    apply Forall_forall. intros audit Hin. apply in_map_iff in Hin.
    destruct Hin as (r & <- & _). unfold redacted_audit. simpl.
    apply Forall_forall. intros v Hv. apply in_map_iff in Hv.
    destruct Hv as (v0 & <- & _). apply redact_secret.
  - intros db2 Hf Hf2 Hrows. unfold GetVariableAudit.
    rewrite (Query_ok db _ Hf), (Query_ok db2 _ Hf2).
    rewrite (GetVariableAudit_rows_tokens E _ _ Hrows []).
    now destruct (GetVariableAudit_rows E _ _).
  - intros Hnone Hf. unfold GetVariableAudit.
    rewrite (Query_ok db _ Hf), (select_audits_none _ _ _ Hnone). reflexivity.
Qed.

Lemma GetVariableAudit_never_exposes_secrets_witness :
  (exists audits,
     GetVariableAudit Demo.env
       (mkDB (mkTables (project Demo.t0) (application Demo.t0) []
                [ mkAuditRow 1 5 1
                    (string_of_list_byte
                       (fst (Demo.Marshal
                               [ mkVariable 2 "ENV" "prod" "string";
                                 mkVariable 1 "DB_PASS" "not base64!" "password" ])))
                    "alice" ])
          1 2 10 [])
       "PRJ" "A"
     = (after_stmt
          (mkDB (mkTables (project Demo.t0) (application Demo.t0) []
                   [ mkAuditRow 1 5 1
                       (string_of_list_byte
                          (fst (Demo.Marshal
                                  [ mkVariable 2 "ENV" "prod" "string";
                                    mkVariable 1 "DB_PASS" "not base64!"
                                      "password" ])))
                       "alice" ])
             1 2 10 []),
        audits, None)
     /\ map Variables audits
        = [ [ mkVariable 2 "ENV" "prod" "string";
              mkVariable 1 "DB_PASS" "**********" "password" ] ])
  /\ GetVariableAudit Demo.env Demo.db0 "PRJ" "A" = (after_stmt Demo.db0, [], None).
Proof.
  split.
  - destruct (proj1 (GetVariableAudit_never_exposes_secrets Demo.env
                       (mkDB (mkTables (project Demo.t0) (application Demo.t0) []
                                [ mkAuditRow 1 5 1
                                    (string_of_list_byte
                                       (fst (Demo.Marshal
                                               [ mkVariable 2 "ENV" "prod" "string";
                                                 mkVariable 1 "DB_PASS" "not base64!"
                                                   "password" ])))
                                    "alice" ])
                          1 2 10 [])
                       "PRJ" "A") eq_refl)
      as (audits & Heq & Hrows).
    + repeat constructor.
    + exists audits. split; [exact Heq|].
      cbv in Heq. injection Heq as <-. reflexivity.
  - apply (GetVariableAudit_never_exposes_secrets Demo.env Demo.db0 "PRJ" "A").
    + constructor.
    + reflexivity.
Defined.

(** C9. A block that does not deserialise fails the whole listing: whatever
    rows the cursor delivers to the loop of [GetVariableAudit], if one of them
    holds such a block the loop ends with an error and no snapshot, the
    well-formed ones read before it included. So when the statement runs and
    a stored snapshot of the owner has such a block, [GetVariableAudit]
    returns an error and no snapshot at all. *)
Theorem GetVariableAudit_fails_on_malformed_block (E : Env) (db : DB)
    (key appName : string) (r : AuditRow) :
  (forall delivered audits,
     Exists (fun r' => snd (Unmarshal E (list_byte_of_string (data r'))) <> None)
       delivered ->
     exists e, GetVariableAudit_rows E delivered audits = ([], Some e))
  /\ (next_fault db = None ->
      In r (application_variable_audit (tables db)) ->
      joined_owner (tables db) (audit_application_id r) appName key <> [] ->
      snd (Unmarshal E (list_byte_of_string (data r))) <> None ->
      exists e, GetVariableAudit E db key appName = (after_stmt db, [], Some e)).
Proof.
  split.
  - intros delivered audits H. now apply GetVariableAudit_rows_malformed.
  - intros Hf Hr Hown Hbad. unfold GetVariableAudit.
    rewrite (Query_ok db _ Hf).
    destruct (GetVariableAudit_rows_malformed E
                (select_audits (tables db) appName key) []) as [e He].
    + apply Exists_exists. exists r. split; [|assumption].
      apply In_select_audits. now split.
    + rewrite He. now exists e.
Qed.

Lemma GetVariableAudit_fails_on_malformed_block_witness :
  exists e,
    GetVariableAudit Demo.env Demo.db_bad_block "PRJ" "A"
    = (after_stmt Demo.db_bad_block, [], Some e).
Proof.
  refine (proj2 (GetVariableAudit_fails_on_malformed_block Demo.env Demo.db_bad_block
                   "PRJ" "A" (mkAuditRow 2 6 1 "{oops" "alice"))
            eq_refl (or_intror (or_introl eq_refl)) _ _); discriminate.
Defined.

(** ** The audit trail: recording *)

Lemma Exec_insert_audit_ok (db : DB) (applicationID : Z) (data author : string) :
  next_fault db = None ->
  Exec_insert_audit db applicationID data author
  = (mkDB (mkTables (project (tables db)) (application (tables db))
             (application_variable (tables db))
             (application_variable_audit (tables db)
              ++ [mkAuditRow (application_variable_audit_id_seq db) (clock db + 1)
                    applicationID data author]))
       (application_variable_id_seq db) (application_variable_audit_id_seq db + 1)
       (clock db + 1) (tl (faults db)), 1, None).
Proof.
  intros Hf. unfold Exec_insert_audit.
  rewrite (begin_stmt_ok db Hf), after_stmt_eq. reflexivity.
Qed.

Lemma Exec_insert_audit_inv (db db' : DB) (applicationID : Z) (data author : string)
    (res : Result) :
  Exec_insert_audit db applicationID data author = (db', res, None) ->
  next_fault db = None.
Proof.
  unfold Exec_insert_audit. rewrite begin_stmt_cases.
  destruct (next_fault db); simpl; [discriminate|reflexivity].
Qed.

Lemma read_value_with_DecryptS (E : Env) decrypt (c : structarg) (r : VariableRow) :
  (forall t clearRepr cipherBlob wantPlaintext,
     NeedPlaceholder E t = false ->
     decrypt t clearRepr cipherBlob wantPlaintext
     = DecryptS E t clearRepr cipherBlob wantPlaintext) ->
  encryptsecret c = true ->
  read_value (with_DecryptS E decrypt) c r = read_value E c r.
Proof.
  intros Hagree Hc. unfold read_value, row_type. simpl. rewrite Hc. simpl.
  destruct (NeedPlaceholder E _) eqn:Hs; [reflexivity|]. now apply Hagree.
Qed.

Lemma GetAllVariable_rows_with_DecryptS (E : Env) decrypt (c : structarg)
    (rows : list VariableRow) :
  (forall t clearRepr cipherBlob wantPlaintext,
     NeedPlaceholder E t = false ->
     decrypt t clearRepr cipherBlob wantPlaintext
     = DecryptS E t clearRepr cipherBlob wantPlaintext) ->
  encryptsecret c = true ->
  forall acc,
    GetAllVariable_rows (with_DecryptS E decrypt) c rows acc
    = GetAllVariable_rows E c rows acc.
Proof.
  intros Hagree Hc. induction rows as [|r rows IH]; intros acc; [reflexivity|].
  rewrite !GetAllVariable_rows_step. unfold read_variable.
  rewrite (read_value_with_DecryptS E decrypt c r Hagree Hc).
  destruct (read_value E c r) as [val [e|]]; [reflexivity|apply IH].
Qed.

(** C3. A snapshot stored by [CreateAudit] holds the value of every
    secret-kind variable as the base64 text of the cipher column of its row,
    made of the characters of that encoding only; and recording never applies
    [DecryptS] to a secret kind: replacing it there by anything leaves
    [CreateAudit] as it is, so the plaintext of a secret is not computed, let
    alone stored. *)
Theorem CreateAudit_stores_secrets_encrypted (E : Env) (db db1 : DB) (key : string)
    (app : Application) (u : User) :
  CreateAudit E db key app u = (db1, None) ->
  (exists snapshot data,
     Marshal E snapshot = (data, None)
     /\ application_variable_audit (tables db1)
        = (application_variable_audit (tables db)
           ++ [mkAuditRow (application_variable_audit_id_seq db) (clock db1)
                 (Application_ID app) (string_of_list_byte data) (Username u)])%list
     /\ Forall2
          (fun r v =>
             Type' v = VariableTypeFromString E (var_type r)
             /\ (NeedPlaceholder E (Type' v) = true ->
                 Value v = Base64.EncodeToString (cipher_value r)
                 /\ Base64.text_safe (Value v) = true))
          (select_variables_by_name (tables db) (Application_Name app) key)
          snapshot)
  /\ forall decrypt,
       (forall t clearRepr cipherBlob wantPlaintext,
          NeedPlaceholder E t = false ->
          decrypt t clearRepr cipherBlob wantPlaintext
          = DecryptS E t clearRepr cipherBlob wantPlaintext) ->
       CreateAudit (with_DecryptS E decrypt) db key app u = CreateAudit E db key app u.
Proof.
  intros H. split.
  - unfold CreateAudit in H.
    destruct (GetAllVariable E db key _ _) as [[db0 vars] [e|]] eqn:HG;
      [discriminate|].
    apply GetAllVariable_inv in HG. destruct HG as (Hf & -> & _ & ->).
    destruct (Marshal E _) as [data [e|]] eqn:HM; [discriminate|].
    destruct (Exec_insert_audit _ _ _ _) as [[db2 res] err] eqn:HX.
    injection H as -> ->.
    pose proof (Exec_insert_audit_inv _ _ _ _ _ _ HX) as Hf2.
    rewrite (Exec_insert_audit_ok _ _ _ _ Hf2) in HX. injection HX as <- _.
    eexists. exists data. split; [exact HM|]. split.
    + simpl. now rewrite (after_stmt_eq db).
    + rewrite map_map. apply Forall2_map_r, Forall_forall. intros r _.
      unfold CreateAudit_encode, read_variable, read_value. simpl.
      destruct (NeedPlaceholder E (row_type E r)) eqn:Hs; simpl.
      * split; [reflexivity|]. intros _.
        rewrite list_byte_of_string_of_list_byte.
        split; [reflexivity|apply Base64Facts.text_safe_EncodeToString].
      * split; [reflexivity|]. intros Hs'. congruence.
  - intros decrypt Hagree. unfold CreateAudit, GetAllVariable.
    destruct (Query db _) as [[db0 rows] [e|]]; [reflexivity|].
    now rewrite (GetAllVariable_rows_with_DecryptS E decrypt
                   (apply_args [WithEncryptPassword]) rows Hagree eq_refl []).
Qed.

Lemma CreateAudit_stores_secrets_encrypted_witness :
  exists snapshot,
    Forall2
      (fun r v =>
         Type' v = Demo.VariableTypeFromString (var_type r)
         /\ (Demo.NeedPlaceholder (Type' v) = true ->
             Value v = Base64.EncodeToString (cipher_value r)
             /\ Base64.text_safe (Value v) = true))
      Demo.rows_A snapshot.
Proof.
  destruct (CreateAudit_stores_secrets_encrypted Demo.env Demo.db0
              (fst (CreateAudit Demo.env Demo.db0 "PRJ" Demo.app_A Demo.alice))
              "PRJ" Demo.app_A Demo.alice eq_refl)
    as [(snapshot & data & _ & _ & Hsnapshot) _].
  exists snapshot. exact Hsnapshot.
Defined.

(** ** The variable store: insertion *)

Lemma Exec_insert_variable_eq (db : DB) (applicationID : Z) (name : string)
    (clear : NullString) (cipher : list byte) (type : string) :
  Exec_insert_variable db applicationID name clear cipher type =
  match next_fault db with
  | Some msg => (after_stmt db, 0, Some (ErrDriver msg))
  | None =>
      if has_variable (tables db) applicationID name then
        (mkDB (tables db) (application_variable_id_seq db + 1)
           (application_variable_audit_id_seq db) (clock db + 1) (tl (faults db)),
         0, Some unique_violation)
      else
        (mkDB (mkTables (project (tables db)) (application (tables db))
                 (application_variable (tables db)
                  ++ [mkVariableRow (application_variable_id_seq db) applicationID
                        name clear cipher type])
                 (application_variable_audit (tables db)))
           (application_variable_id_seq db + 1)
           (application_variable_audit_id_seq db) (clock db + 1) (tl (faults db)),
         1, None)
  end.
Proof.
  unfold Exec_insert_variable. rewrite begin_stmt_cases.
  destruct (next_fault db); simpl; [reflexivity|].
  rewrite after_stmt_eq. reflexivity.
Qed.

Lemma Exec_touch_application_eq (db : DB) (applicationID : Z) :
  Exec_touch_application db applicationID =
  match next_fault db with
  | Some msg => (after_stmt db, 0, Some (ErrDriver msg))
  | None =>
      (mkDB (mkTables (project (tables db))
               (map (fun a => if application_id a =? applicationID
                              then mkApplicationRow (application_id a)
                                     (application_name a)
                                     (application_project_id a) (clock db + 1)
                              else a)
                  (application (tables db)))
               (application_variable (tables db))
               (application_variable_audit (tables db)))
         (application_variable_id_seq db) (application_variable_audit_id_seq db)
         (clock db + 1) (tl (faults db)),
       Z.of_nat (List.length (filter (fun a => application_id a =? applicationID)
                                (application (tables db)))),
       None)
  end.
Proof.
  unfold Exec_touch_application. rewrite begin_stmt_cases.
  destruct (next_fault db); simpl; [reflexivity|].
  rewrite after_stmt_eq. reflexivity.
Qed.

Lemma Exec_insert_variable_error (db db1 : DB) (applicationID : Z) (name : string)
    (clear : NullString) (cipher : list byte) (type : string) (res : Result)
    (e : error) :
  Exec_insert_variable db applicationID name clear cipher type = (db1, res, Some e) ->
  exists msg, e = ErrDriver msg.
Proof.
  rewrite Exec_insert_variable_eq.
  destruct (next_fault db) as [msg|].
  - intros [= _ _ <-]. now exists msg.
  - destruct (has_variable _ _ _); [|discriminate].
    intros [= _ _ <-]. unfold unique_violation. eauto.
Qed.

Lemma UpdateLastModified_error (db db' : DB) (applicationID : Z) (e : error) :
  UpdateLastModified db applicationID = (db', Some e) ->
  exists msg, e = ErrDriver msg.
Proof.
  unfold UpdateLastModified. rewrite Exec_touch_application_eq.
  destruct (next_fault db) as [msg|]; [|discriminate].
  intros [= _ <-]. now exists msg.
Qed.

(** A successful bump stamps the rows of the application with the time of the
    statement and leaves the variables alone. *)
Lemma UpdateLastModified_ok (db db' : DB) (applicationID : Z) :
  UpdateLastModified db applicationID = (db', None) ->
  application_variable (tables db') = application_variable (tables db)
  /\ Forall (fun a => application_id a = applicationID -> last_modified a = clock db')
       (application (tables db')).
Proof.
  unfold UpdateLastModified. rewrite Exec_touch_application_eq.
  destruct (next_fault db) as [msg|]; [discriminate|].
  intros [= <-]. simpl. split; [reflexivity|].
  apply Forall_forall. intros a Ha. apply in_map_iff in Ha.
  destruct Ha as (a0 & <- & _).
  destruct (application_id a0 =? applicationID) eqn:Hid; simpl.
  - reflexivity.
  - intros Heq. apply Z.eqb_neq in Hid. contradiction.
Qed.

Lemma prefix_iff (p : string) : forall s,
  String.prefix p s = true <-> exists after, s = p ++ after.
Proof.
  induction p as [|a p IH]; intros s.
  - destruct s; simpl; (split; [intros _; eexists; reflexivity|reflexivity]).
  - destruct s as [|b s]; simpl.
    + split; [discriminate|]. intros [after H]. discriminate.
    + destruct (ascii_dec a b) as [->|Hab].
      * rewrite IH. split; intros [after H]; exists after; congruence.
      * split; [discriminate|]. intros [after H]. congruence.
Qed.

(** [strings.Contains] finds a text exactly when it occurs. *)
Lemma Contains_iff (substr : string) : forall s,
  Contains s substr = true <-> exists before after, s = before ++ substr ++ after.
Proof.
  induction s as [|c s IH]; cbn [Contains]; rewrite orb_true_iff, prefix_iff.
  - split.
    + intros [[after H]|H]; [|discriminate]. now exists EmptyString, after.
    + intros ([|c before] & after & H); [|discriminate]. left. now exists after.
  - rewrite IH. split.
    + intros [[after H]|(before & after & H)].
      * now exists EmptyString, after.
      * exists (String c before), after. simpl. now rewrite H.
    + intros ([|c' before] & after & H).
      * left. now exists after.
      * right. exists before, after. simpl in H. congruence.
Qed.

Lemma Contains_names_constraint (e : error) :
  Contains (Error e) application_variable_pkey = true <-> names_constraint e.
Proof. apply Contains_iff. Qed.

(** C5, as the code has it. [InsertVariable], once the value is encrypted,
    attempts the insert and classifies the error of the statement by its
    text: it fails with [ErrVariableExists] exactly when the statement fails
    with an error in whose text the name [application_variable_pkey] occurs.
    A second variable of that name in the application is such a case, so it
    is always answered by [ErrVariableExists], with the tables left as they
    were; an error in which the name does not occur is returned as it is;
    without an error the result is that of the bump of [last_modified], and
    on success the new row is stored and the rows of the owner carry the time
    of the bump. *)
Theorem InsertVariable_exists_iff_error_names_constraint (E : Env) (db db1 : DB)
    (applicationID : Z) (variable : Variable') (clear : NullString)
    (cipher : list byte) (res : Result) (err : option error) :
  EncryptS E (Type' variable) (Value variable) = (clear, cipher, None) ->
  Exec_insert_variable db applicationID (Name variable) clear cipher (Type' variable)
  = (db1, res, err) ->
  (snd (InsertVariable E db applicationID variable) = Some ErrVariableExists
   <-> exists e, err = Some e /\ names_constraint e)
  /\ (next_fault db = None ->
      has_variable (tables db) applicationID (Name variable) = true ->
      InsertVariable E db applicationID variable = (db1, Some ErrVariableExists)
      /\ tables db1 = tables db)
  /\ (forall e, err = Some e -> ~ names_constraint e ->
      InsertVariable E db applicationID variable = (db1, Some e))
  /\ (err = None ->
      InsertVariable E db applicationID variable = UpdateLastModified db1 applicationID)
  /\ (forall db2,
        InsertVariable E db applicationID variable = (db2, None) ->
        In (mkVariableRow (application_variable_id_seq db) applicationID
              (Name variable) clear cipher (Type' variable))
          (application_variable (tables db2))
        /\ Forall (fun a => application_id a = applicationID ->
                            last_modified a = clock db2)
             (application (tables db2))).
Proof.
  intros HEnc HExec.
  assert (HI : InsertVariable E db applicationID variable =
               match err with
               | Some e => if Contains (Error e) application_variable_pkey
                           then (db1, Some ErrVariableExists) else (db1, Some e)
               | None => UpdateLastModified db1 applicationID
               end).
  { unfold InsertVariable. rewrite HEnc, HExec. reflexivity. }
  split; [|split; [|split; [|split]]].
  - rewrite HI. split.
    + destruct err as [e|].
      * destruct (Contains (Error e) application_variable_pkey) eqn:Hrep.
        -- intros _. exists e. split; [reflexivity|].
           now apply Contains_names_constraint.
        -- simpl. intros [= ->].
           apply Exec_insert_variable_error in HExec. destruct HExec. discriminate.
      * destruct (UpdateLastModified db1 applicationID) as [db2 [e|]] eqn:HU;
          simpl; [|discriminate].
        intros [= ->]. apply UpdateLastModified_error in HU.
        destruct HU. discriminate.
    + intros (e & -> & Hnames). apply Contains_names_constraint in Hnames.
      now rewrite Hnames.
  - intros Hf Hhas. rewrite Exec_insert_variable_eq, Hf, Hhas in HExec.
    injection HExec as <- _ <-. rewrite HI. split; reflexivity.
  - intros e -> Hrep. rewrite HI.
    destruct (Contains (Error e) application_variable_pkey) eqn:Hc; [|reflexivity].
    exfalso. now apply Hrep, Contains_names_constraint.
  - intros ->. exact HI.
  - intros db2 H. rewrite HI in H. destruct err as [e|].
    + destruct (Contains (Error e) application_variable_pkey); discriminate.
    + apply UpdateLastModified_ok in H. destruct H as [Hvars Happ].
      split; [|exact Happ]. rewrite Hvars.
      rewrite Exec_insert_variable_eq in HExec.
      destruct (next_fault db); [discriminate|].
      destruct (has_variable _ _ _); [discriminate|].
      injection HExec as <- _. simpl. apply in_or_app. right. now left.
Qed.

Lemma InsertVariable_exists_iff_error_names_constraint_witness :
  InsertVariable Demo.env Demo.db0 1 (mkVariable 0 "ENV" "staging" "string")
  = (fst (fst (Exec_insert_variable Demo.db0 1 "ENV" (Some "staging") [] "string")),
     Some ErrVariableExists).
Proof.
  refine (proj1 (proj1 (proj2
            (InsertVariable_exists_iff_error_names_constraint Demo.env Demo.db0
               (fst (fst (Exec_insert_variable Demo.db0 1 "ENV" (Some "staging") []
                            "string")))
               1 (mkVariable 0 "ENV" "staging" "string") (Some "staging") [] 0
               (Some unique_violation) eq_refl eq_refl)) eq_refl eq_refl)).
Defined.

(** C5, as the claim has it, fails: [REGION] is a new name for the application
    and no uniqueness is violated; the insert fails because the index is
    damaged, and since the text of that error names the index
    [InsertVariable] answers that the variable already exists. *)
Lemma InsertVariable_exists_without_unique_violation :
  has_variable Demo.t0 1 "REGION" = false
  /\ snd (Exec_insert_variable (mkDB Demo.t0 4 1 10 [Some index_corrupted])
            1 "REGION" (Some "eu") [] "string")
     = Some (ErrDriver index_corrupted)
  /\ ErrDriver index_corrupted <> unique_violation
  /\ snd (InsertVariable Demo.env (mkDB Demo.t0 4 1 10 [Some index_corrupted])
            1 (mkVariable 0 "REGION" "eu" "string"))
     = Some ErrVariableExists.
Proof.
  repeat split; try reflexivity. discriminate.
Qed.

(** ** The audit trail: retrieving one snapshot *)

Lemma In_select_audit (t : Tables) (appName key : string) (auditID : Z)
    (r : AuditRow) :
  In r (select_audit t appName key auditID) <->
  In r (application_variable_audit t)
  /\ audit_id r = auditID
  /\ joined_owner t (audit_application_id r) appName key <> [].
Proof.
  unfold select_audit. rewrite In_order_by, in_flat_map. split.
  - intros (a & Ha & Hin).
    destruct (audit_id a =? auditID) eqn:Hid; [|destruct Hin].
    apply in_map_iff in Hin. destruct Hin as (o & <- & Ho).
    apply Z.eqb_eq in Hid. repeat split; try assumption.
    intros Hnil. rewrite Hnil in Ho. exact Ho.
  - intros (Hr & Hid & Hown). exists r. split; [assumption|].
    apply Z.eqb_eq in Hid. rewrite Hid.
    destruct (joined_owner t _ _ _) as [|o os]; [congruence|]. now left.
Qed.

(** The row the query of [GetAudit] comes back with when one stored row has
    the identifier. *)
Lemma first_row_select_audit (t : Tables) (appName key : string) (r : AuditRow) :
  In r (application_variable_audit t) ->
  joined_owner t (audit_application_id r) appName key <> [] ->
  (forall a, In a (application_variable_audit t) ->
             audit_id a = audit_id r -> a = r) ->
  first_row (select_audit t appName key (audit_id r)) None = inl r.
Proof.
  intros Hr Hown Huniq.
  destruct (select_audit t appName key (audit_id r)) as [|x rows] eqn:Hsel.
  - exfalso.
    assert (Hin : In r (select_audit t appName key (audit_id r)))
      by (apply In_select_audit; auto).
    rewrite Hsel in Hin. exact Hin.
  - assert (Hx : In x (select_audit t appName key (audit_id r)))
      by (rewrite Hsel; now left).
    apply In_select_audit in Hx. destruct Hx as (Hx & Hid & _).
    simpl. now rewrite (Huniq x Hx Hid).
Qed.

(** C1, as the code has it. Recording a snapshot and retrieving it by the
    identifier it was given returns, when the serialisation gives the recorded
    collection back, exactly the variables [GetAllVariable] read in
    encrypted-token mode at record time: for a secret kind the cipher column
    of the row converted as it is, decoded from base64 and not decrypted, for
    another kind what [DecryptS] returned. [GetAudit] does not call the
    secret codec. *)
Theorem GetAudit_returns_recorded_tokens (E : Env) (db dbq db1 : DB) (key : string)
    (app : Application) (u : User) (recorded : list Variable') :
  GetAllVariable E db key (Application_Name app) [WithEncryptPassword]
  = (dbq, recorded, None) ->
  CreateAudit E db key app u = (db1, None) ->
  (forall data,
     Marshal E (map (CreateAudit_encode E) recorded) = (data, None) ->
     Unmarshal E data = (map (CreateAudit_encode E) recorded, None)) ->
  joined_owner (tables db) (Application_ID app) (Application_Name app) key <> [] ->
  Forall (fun a => audit_id a <> application_variable_audit_id_seq db)
    (application_variable_audit (tables db)) ->
  next_fault db1 = None ->
  GetAudit E db1 key (Application_Name app) (application_variable_audit_id_seq db)
  = (after_stmt db1, recorded, None)
  /\ Forall2
       (fun r v =>
          Type' v = VariableTypeFromString E (var_type r)
          /\ (NeedPlaceholder E (Type' v) = true ->
              Value v = string_of_list_byte (cipher_value r))
          /\ (NeedPlaceholder E (Type' v) = false ->
              DecryptS E (Type' v) (var_value r) (cipher_value r) false
              = (Value v, None)))
       (select_variables_by_name (tables db) (Application_Name app) key)
       recorded.
Proof.
  intros HG HC Hjson Hown Hfresh Hf1. split.
  - unfold CreateAudit in HC. rewrite HG in HC.
    destruct (Marshal E _) as [data [e|]] eqn:HM; [discriminate|].
    specialize (Hjson data eq_refl).
    apply GetAllVariable_inv in HG. destruct HG as (_ & -> & _ & _).
    destruct (Exec_insert_audit _ _ _ _) as [[db2 res] err] eqn:HX.
    injection HC as -> ->.
    pose proof (Exec_insert_audit_inv _ _ _ _ _ _ HX) as Hf2.
    rewrite (Exec_insert_audit_ok _ _ _ _ Hf2) in HX. injection HX as <- _.
    unfold GetAudit. rewrite (Query_ok _ _ Hf1).
    set (r := mkAuditRow (application_variable_audit_id_seq (after_stmt db))
                (clock (after_stmt db) + 1) (Application_ID app)
                (string_of_list_byte data) (Username u)).
    assert (Hseq : application_variable_audit_id_seq db = audit_id r)
      by (simpl; now rewrite (after_stmt_eq db)).
    rewrite Hseq.
    rewrite (first_row_select_audit _ (Application_Name app) key r).
    + simpl. rewrite list_byte_of_string_of_list_byte, Hjson.
      now rewrite GetAudit_decode_encode.
    + simpl. apply in_or_app. right. now left.
    + cbn [tables]. unfold joined_owner in *. simpl.
      now rewrite (after_stmt_eq db).
    + cbn [tables application_variable_audit]. intros a Ha Hid.
      apply in_app_or in Ha. destruct Ha as [Ha|[<-|[]]]; [|reflexivity].
      exfalso. rewrite (after_stmt_eq db) in Ha. simpl in Ha.
      rewrite Forall_forall in Hfresh. apply (Hfresh a Ha). congruence.
  - apply GetAllVariable_inv in HG. destruct HG as (_ & _ & Hall & ->).
    apply Forall2_map_r. eapply Forall_impl; [|exact Hall].
    intros r Hr. unfold read_variable, read_value, row_type in *. simpl in *.
    destruct (NeedPlaceholder E _) eqn:Hs; simpl in *.
    + split; [reflexivity|]. split; [reflexivity|discriminate].
    + split; [reflexivity|]. split; [discriminate|]. intros _.
      destruct (DecryptS E _ _ _ _) as [val err]. simpl in *. now subst.
Qed.

Lemma GetAudit_returns_recorded_tokens_witness :
  GetAudit Demo.env (fst (CreateAudit Demo.env Demo.db0 "PRJ" Demo.app_A Demo.alice))
    "PRJ" "A" 1
  = (after_stmt (fst (CreateAudit Demo.env Demo.db0 "PRJ" Demo.app_A Demo.alice)),
     [ mkVariable 1 "DB_PASS" "enc:t3rc3s" "password";
       mkVariable 2 "ENV" "prod" "string" ], None).
Proof.
  apply (GetAudit_returns_recorded_tokens Demo.env Demo.db0 (after_stmt Demo.db0)
           (fst (CreateAudit Demo.env Demo.db0 "PRJ" Demo.app_A Demo.alice))
           "PRJ" Demo.app_A Demo.alice).
  - reflexivity.
  - reflexivity.
  - intros data H. injection H as <-. reflexivity.
  - discriminate.
  - constructor.
  - reflexivity.
Defined.

(** C1, as the claim has it, fails: on the database of the example the
    secret [DB_PASS] had the plaintext [s3cr3t] when the snapshot was
    recorded, and retrieving the snapshot returns its cipher blob. *)
Lemma GetAudit_returns_cipher_not_plaintext :
  snd (CreateAudit Demo.env Demo.db0 "PRJ" Demo.app_A Demo.alice) = None
  /\ GetAllVariable Demo.env Demo.db0 "PRJ" "A" [WithClearPassword]
     = (after_stmt Demo.db0,
        [ mkVariable 1 "DB_PASS" "s3cr3t" "password";
          mkVariable 2 "ENV" "prod" "string" ], None)
  /\ GetAudit Demo.env
       (fst (CreateAudit Demo.env Demo.db0 "PRJ" Demo.app_A Demo.alice)) "PRJ" "A" 1
     = (after_stmt (fst (CreateAudit Demo.env Demo.db0 "PRJ" Demo.app_A Demo.alice)),
        [ mkVariable 1 "DB_PASS" "enc:t3rc3s" "password";
          mkVariable 2 "ENV" "prod" "string" ], None)
  /\ map Value
       (snd (fst (GetAudit Demo.env
                    (fst (CreateAudit Demo.env Demo.db0 "PRJ" Demo.app_A Demo.alice))
                    "PRJ" "A" 1)))
     <> map Value
          (snd (fst (GetAllVariable Demo.env Demo.db0 "PRJ" "A" [WithClearPassword]))).
Proof.
  repeat split; try reflexivity. discriminate.
Qed.

(** ** The variable store: deleting one variable *)

Lemma existsb_andb_const {A : Type} (f : A -> bool) (b : bool) (l : list A) :
  existsb (fun a => f a && b) l = existsb f l && b.
Proof.
  induction l as [|a l IH]; simpl; [reflexivity|].
  rewrite IH. destruct (f a), b, (existsb f l); reflexivity.
Qed.

Lemma filter_false {A : Type} (l : list A) : filter (fun _ => false) l = [].
Proof. induction l; simpl; auto. Qed.

(** A successful [DeleteVariable] has removed the variables of that name of
    every application: the statement never compares the application of a
    variable with the one it is given. *)
Lemma DeleteVariable_deletes_by_name (db db1 : DB) (applicationID : Z)
    (variableName : string) :
  DeleteVariable db applicationID variableName = (db1, None) ->
  application_variable (tables db1)
  = filter (fun v => negb (String.eqb (var_name v) variableName))
      (application_variable (tables db)).
Proof.
  unfold DeleteVariable, Exec_delete_variable. rewrite begin_stmt_cases.
  destruct (next_fault db) as [msg|]; simpl; [discriminate|].
  rewrite tables_after_stmt.
  destruct (existsb (fun a => application_id a =? applicationID)
              (application (tables db))) eqn:Happ.
  - rewrite (filter_ext _ (fun v => String.eqb (var_name v) variableName)).
    2:{ intros v. now rewrite existsb_andb_const, Happ. }
    rewrite (filter_ext (fun v => negb (existsb _ _))
               (fun v => negb (String.eqb (var_name v) variableName))).
    2:{ intros v. now rewrite existsb_andb_const, Happ. }
    destruct (_ =? 0); [discriminate|].
    intros H. apply UpdateLastModified_ok in H. destruct H as [-> _].
    reflexivity.
  - rewrite (filter_ext _ (fun _ => false)).
    2:{ intros v. now rewrite existsb_andb_const, Happ. }
    rewrite filter_false. simpl. discriminate.
Qed.

(** C2. The code does not scope the deletion to the owner. Applications [A]
    and [B] each have a variable [DB_PASS]; deleting [DB_PASS] of [A]
    succeeds and removes the one of [B] as well. *)
Theorem DeleteVariable_deletes_across_applications :
  select_variable (tables Demo.db0) 2 "DB_PASS" = Demo.rows_B
  /\ snd (DeleteVariable Demo.db0 1 "DB_PASS") = None
  /\ select_variable (tables (fst (DeleteVariable Demo.db0 1 "DB_PASS"))) 2 "DB_PASS"
     = [].
Proof. repeat split; reflexivity. Qed.

(** ** The variable store: loading one variable *)

Lemma LoadVariable_clear_row (E : Env) (db : DB) (appID : Z) (varName : string)
    (r : VariableRow) (rows : list VariableRow) (s : string) :
  next_fault db = None ->
  select_variable (tables db) appID varName = r :: rows ->
  var_value r = Some s ->
  LoadVariable E db appID varName
  = (after_stmt db,
     mkVariable (av_id r) (var_name r)
       (if NeedPlaceholder E (var_type r) then PasswordPlaceholder E else s)
       (var_type r), None).
Proof.
  intros Hf Hsel Hs. unfold LoadVariable.
  rewrite (Query_ok _ _ Hf), Hsel. simpl. rewrite Hs. simpl.
  now destruct (NeedPlaceholder E (var_type r)).
Qed.

Lemma LoadVariable_not_found (E : Env) (db : DB) (appID : Z) (varName : string) :
  next_fault db = None ->
  select_variable (tables db) appID varName = [] ->
  LoadVariable E db appID varName = (after_stmt db, zeroVariable, Some ErrNoRows).
Proof.
  intros Hf Hsel. unfold LoadVariable. now rewrite (Query_ok _ _ Hf), Hsel.
Qed.

(** A row whose clear column is NULL cannot be scanned into [v.Value],
    whatever its kind. *)
Lemma LoadVariable_null_clear_column (E : Env) (db : DB) (appID : Z)
    (varName : string) (r : VariableRow) (rows : list VariableRow) :
  next_fault db = None ->
  select_variable (tables db) appID varName = r :: rows ->
  var_value r = None ->
  exists msg,
    LoadVariable E db appID varName
    = (after_stmt db, mkVariable (av_id r) (var_name r) "" "", Some (ErrScan msg)).
Proof.
  intros Hf Hsel Hs. unfold LoadVariable.
  rewrite (Query_ok _ _ Hf), Hsel. simpl. rewrite Hs. simpl. eauto.
Qed.

(** C7. The code does not return the sentinel for a secret as it is stored. A
    secret-kind variable is stored with a NULL clear column: this is so of
    [DB_PASS] of the example, and of the key that [InsertVariable] stores
    here; loading either by name fails with the conversion error of [Scan]
    instead of returning the variable with the placeholder. *)
Theorem LoadVariable_fails_on_stored_secret :
  LoadVariable Demo.env Demo.db0 1 "DB_PASS"
  = (after_stmt Demo.db0, mkVariable 1 "DB_PASS" "" "",
     Some (ErrScan "sql: Scan error: converting NULL to string is unsupported"))
  /\ snd (InsertVariable Demo.env Demo.db0 1 (mkVariable 0 "API_KEY" "k3y" "key"))
     = None
  /\ snd (LoadVariable Demo.env
            (fst (InsertVariable Demo.env Demo.db0 1
                    (mkVariable 0 "API_KEY" "k3y" "key")))
            1 "API_KEY")
     = Some (ErrScan "sql: Scan error: converting NULL to string is unsupported").
Proof. repeat split; reflexivity. Qed.


(** * Further properties of the package *)

(** ** Options *)

Lemma WithClearPassword_neq_WithEncryptPassword :
  WithClearPassword <> WithEncryptPassword.
Proof.
  intros H.
  assert (Hc : clearsecret (WithClearPassword (mkstructarg false false))
               = clearsecret (WithEncryptPassword (mkstructarg false false)))
    by (now rewrite H).
  discriminate Hc.
Qed.

Lemma clearsecret_fold (fs : list FuncArg) : forall c,
  Forall is_option fs ->
  (clearsecret (fold_left (fun c f => f c) fs c) = true
   <-> clearsecret c = true \/ In WithClearPassword fs).
Proof.
  induction fs as [|f fs IH]; intros c Hfs.
  - simpl. intuition auto.
  - inversion Hfs as [|? ? Hf Hfs']; subst. simpl. rewrite (IH _ Hfs').
    destruct Hf as [-> | ->]; simpl.
    + intuition auto.
    + split.
      * intros [H|H]; auto.
      * intros [H|[H|H]]; auto.
        exfalso. now apply WithClearPassword_neq_WithEncryptPassword.
Qed.

Lemma encryptsecret_fold (fs : list FuncArg) : forall c,
  Forall is_option fs ->
  (encryptsecret (fold_left (fun c f => f c) fs c) = true
   <-> encryptsecret c = true \/ In WithEncryptPassword fs).
Proof.
  induction fs as [|f fs IH]; intros c Hfs.
  - simpl. intuition auto.
  - inversion Hfs as [|? ? Hf Hfs']; subst. simpl. rewrite (IH _ Hfs').
    destruct Hf as [-> | ->]; simpl.
    + split.
      * intros [H|H]; auto.
      * intros [H|[H|H]]; auto.
        exfalso. now apply WithClearPassword_neq_WithEncryptPassword.
    + intuition auto.
Qed.

(** X1. The options a listing ends up with depend on which options were
    given only, not on their order or number: [clearsecret] is set exactly
    when [WithClearPassword] is among the arguments, [encryptsecret] exactly
    when [WithEncryptPassword] is. *)
Theorem apply_args_flags (args : list FuncArg) :
  Forall is_option args ->
  (clearsecret (apply_args args) = true <-> In WithClearPassword args)
  /\ (encryptsecret (apply_args args) = true <-> In WithEncryptPassword args).
Proof.
  intros Hargs. unfold apply_args. split.
  - rewrite (clearsecret_fold args _ Hargs). simpl. intuition discriminate.
  - rewrite (encryptsecret_fold args _ Hargs). simpl. intuition discriminate.
Qed.

Lemma apply_args_flags_witness :
  clearsecret
    (apply_args [WithEncryptPassword; WithClearPassword; WithEncryptPassword]) = true.
Proof.
  assert (Hargs : Forall is_option
                    [WithEncryptPassword; WithClearPassword; WithEncryptPassword]).
  { constructor; [right; reflexivity|].
    constructor; [left; reflexivity|].
    constructor; [right; reflexivity|constructor]. }
  apply (proj2 (proj1 (apply_args_flags _ Hargs))).
  right; left; reflexivity.
Defined.

(** ** The two listings *)

Lemma GetAllVariable_rows_without_encrypt (E : Env) (c : structarg)
    (rows : list VariableRow) :
  encryptsecret c = false ->
  forall acc,
    GetAllVariable_rows E c rows acc = GetAllVariableByID_rows E c rows acc.
Proof.
  intros Hc. induction rows as [|r rows IH]; intros acc; [reflexivity|].
  rewrite GetAllVariable_rows_step, GetAllVariableByID_rows_step.
  unfold read_variable, decrypt_variable, read_value, decrypt_value.
  rewrite Hc. simpl.
  destruct (DecryptS E _ _ _ _) as [val [e|]]; [reflexivity|apply IH].
Qed.

Lemma select_variables_by_name_by_id (t : Tables) (appName key : string)
    (applicationID : Z) :
  List.length (joined_owner t applicationID appName key) = 1%nat ->
  (forall i, i <> applicationID -> joined_owner t i appName key = []) ->
  select_variables_by_name t appName key = select_variables_by_id t applicationID.
Proof.
  intros Hone Hnone. unfold select_variables_by_name, select_variables_by_id.
  f_equal. induction (application_variable t) as [|v vs IH]; [reflexivity|].
  simpl. rewrite IH.
  destruct (av_application_id v =? applicationID) eqn:Hid.
  - apply Z.eqb_eq in Hid. rewrite Hid.
    destruct (joined_owner t applicationID appName key) as [|o [|o' os]];
      try discriminate. reflexivity.
  - apply Z.eqb_neq in Hid. now rewrite (Hnone _ Hid).
Qed.

(** X2. The listing by name and the listing by identifier agree: when the
    application name and the project key designate the application of
    identifier [applicationID] and no other, and [WithEncryptPassword] is not
    in force, [GetAllVariable] and [GetAllVariableByID] return the same
    result. *)
Theorem GetAllVariable_agrees_with_GetAllVariableByID (E : Env) (db : DB)
    (key appName : string) (applicationID : Z) (args : list FuncArg) :
  List.length (joined_owner (tables db) applicationID appName key) = 1%nat ->
  (forall i, i <> applicationID -> joined_owner (tables db) i appName key = []) ->
  encryptsecret (apply_args args) = false ->
  GetAllVariable E db key appName args = GetAllVariableByID E db applicationID args.
Proof.
  intros Hone Hnone Hc. unfold GetAllVariable, GetAllVariableByID, Query.
  destruct (begin_stmt db) as [db' [e|]] eqn:Hb; [reflexivity|].
  assert (Ht : tables db' = tables db).
  { rewrite begin_stmt_cases in Hb. injection Hb as <- _. apply tables_after_stmt. }
  rewrite Ht, (select_variables_by_name_by_id _ _ _ _ Hone Hnone).
  now rewrite (GetAllVariable_rows_without_encrypt E _ _ Hc).
Qed.

Lemma GetAllVariable_agrees_with_GetAllVariableByID_witness :
  GetAllVariable Demo.env Demo.db0 "PRJ" "A" [WithClearPassword]
  = GetAllVariableByID Demo.env Demo.db0 1 [WithClearPassword].
Proof.
  apply (GetAllVariable_agrees_with_GetAllVariableByID Demo.env Demo.db0 "PRJ" "A" 1
           [WithClearPassword]).
  - reflexivity.
  - intros i Hi. unfold joined_owner. cbn -[Z.eqb].
    rewrite (proj2 (Z.eqb_neq 1 i)) by congruence.
    now destruct (2 =? i).
  - reflexivity.
Defined.

Lemma In_select_variables_by_id (t : Tables) (applicationID : Z) (r : VariableRow) :
  In r (select_variables_by_id t applicationID) <->
  In r (application_variable t) /\ av_application_id r = applicationID.
Proof.
  unfold select_variables_by_id. rewrite In_order_by, filter_In.
  now rewrite Z.eqb_eq.
Qed.

Lemma In_select_variables_by_name (t : Tables) (appName key : string)
    (r : VariableRow) :
  In r (select_variables_by_name t appName key) <->
  In r (application_variable t)
  /\ joined_owner t (av_application_id r) appName key <> [].
Proof.
  unfold select_variables_by_name. rewrite In_order_by, in_flat_map. split.
  - intros (v & Hv & Hin). apply in_map_iff in Hin.
    destruct Hin as (o & <- & Ho). split; [assumption|].
    intros Hnil. rewrite Hnil in Ho. exact Ho.
  - intros [Hr Hown]. exists r. split; [assumption|].
    destruct (joined_owner t _ _ _) as [|o os]; [congruence|]. now left.
Qed.

Lemma select_nil {A : Type} (l : list A) : (forall r, ~ In r l) -> l = [].
Proof.
  destruct l as [|x l]; [reflexivity|]. intros H. exfalso. apply (H x). now left.
Qed.

(** X3. An application without variables: when the statement reaches the
    store, both listings return the empty collection and no error. *)
Theorem listing_without_variables_is_empty (E : Env) (db : DB) (key appName : string)
    (applicationID : Z) (args : list FuncArg) :
  next_fault db = None ->
  (Forall (fun v => av_application_id v <> applicationID)
     (application_variable (tables db)) ->
   GetAllVariableByID E db applicationID args = (after_stmt db, [], None))
  /\ (Forall (fun v => joined_owner (tables db) (av_application_id v) appName key = [])
        (application_variable (tables db)) ->
      GetAllVariable E db key appName args = (after_stmt db, [], None)).
Proof.
  intros Hf. split; intros Hnone; rewrite Forall_forall in Hnone.
  - unfold GetAllVariableByID. rewrite (Query_ok _ _ Hf).
    rewrite (select_nil (select_variables_by_id (tables db) applicationID));
      [reflexivity|].
    intros r Hr. apply In_select_variables_by_id in Hr. destruct Hr as [Hr Hid].
    now apply (Hnone r Hr).
  - unfold GetAllVariable. rewrite (Query_ok _ _ Hf).
    rewrite (select_nil (select_variables_by_name (tables db) appName key));
      [reflexivity|].
    intros r Hr. apply In_select_variables_by_name in Hr. destruct Hr as [Hr Hown].
    now apply Hown, Hnone.
Qed.

Lemma listing_without_variables_is_empty_witness :
  GetAllVariableByID Demo.env Demo.db0 7 [] = (after_stmt Demo.db0, [], None).
Proof.
  apply (listing_without_variables_is_empty Demo.env Demo.db0 "PRJ" "A" 7 []).
  - reflexivity.
  - repeat constructor; discriminate.
Defined.

Lemma GetAllVariable_rows_error (E : Env) (c : structarg) (rows : list VariableRow) :
  Exists (fun r => snd (read_value E c r) <> None) rows ->
  forall acc, exists e, GetAllVariable_rows E c rows acc = ([], Some e).
Proof.
  induction rows as [|r rows IH]; intros H acc.
  - inversion H.
  - rewrite GetAllVariable_rows_step.
    destruct (read_value E c r) as [val [e|]] eqn:Hr.
    + now exists e.
    + apply IH. inversion H; subst; [|assumption].
      rewrite Hr in *. simpl in *. congruence.
Qed.

Lemma GetAllVariableByID_rows_error (E : Env) (c : structarg)
    (rows : list VariableRow) :
  Exists (fun r => snd (decrypt_value E c r) <> None) rows ->
  forall acc, exists e, GetAllVariableByID_rows E c rows acc = ([], Some e).
Proof.
  induction rows as [|r rows IH]; intros H acc.
  - inversion H.
  - rewrite GetAllVariableByID_rows_step.
    destruct (decrypt_value E c r) as [val [e|]] eqn:Hr.
    + now exists e.
    + apply IH. inversion H; subst; [|assumption].
      rewrite Hr in *. simpl in *. congruence.
Qed.

(** X4. One value that does not decrypt fails the whole listing: when the
    statement runs and [DecryptS] returns an error for a row of the
    application, the listing returns an error and no variable at all, the
    readable ones included. In [GetAllVariable] this is so unless the row is
    a secret read in encrypted-token mode, which is not decrypted. *)
Theorem listing_fails_on_decrypt_error (E : Env) (db : DB) (key appName : string)
    (applicationID : Z) (args : list FuncArg) (r : VariableRow) :
  next_fault db = None ->
  In r (application_variable (tables db)) ->
  snd (DecryptS E (VariableTypeFromString E (var_type r)) (var_value r)
         (cipher_value r) (clearsecret (apply_args args))) <> None ->
  (av_application_id r = applicationID ->
   exists e, GetAllVariableByID E db applicationID args = (after_stmt db, [], Some e))
  /\ (joined_owner (tables db) (av_application_id r) appName key <> [] ->
      encryptsecret (apply_args args)
      && NeedPlaceholder E (VariableTypeFromString E (var_type r)) = false ->
      exists e, GetAllVariable E db key appName args = (after_stmt db, [], Some e)).
Proof.
  intros Hf Hr Hbad. split.
  - intros Hid. unfold GetAllVariableByID. rewrite (Query_ok db _ Hf).
    destruct (GetAllVariableByID_rows_error E (apply_args args)
                (select_variables_by_id (tables db) applicationID)) with (acc := @nil Variable')
      as [e He].
    + apply Exists_exists. exists r. split; [|exact Hbad].
      apply In_select_variables_by_id. now split.
    + rewrite He. eauto.
  - intros Hown Hmode. unfold GetAllVariable. rewrite (Query_ok db _ Hf).
    destruct (GetAllVariable_rows_error E (apply_args args)
                (select_variables_by_name (tables db) appName key)) with (acc := @nil Variable')
      as [e He].
    + apply Exists_exists. exists r. split.
      * apply In_select_variables_by_name. now split.
      * unfold read_value, row_type. now rewrite Hmode.
    + rewrite He. eauto.
Qed.

Lemma listing_fails_on_decrypt_error_witness :
  exists e,
    GetAllVariableByID Demo.env
      (mkDB (mkTables (project Demo.t0) (application Demo.t0)
               (mkVariableRow 9 1 "TOKEN" None [] "password" :: Demo.rows_A) [])
         10 1 10 [])
      1 [WithClearPassword]
    = (after_stmt
         (mkDB (mkTables (project Demo.t0) (application Demo.t0)
                  (mkVariableRow 9 1 "TOKEN" None [] "password" :: Demo.rows_A) [])
            10 1 10 []),
       [], Some e).
Proof.
  refine (proj1 (listing_fails_on_decrypt_error Demo.env
                   (mkDB (mkTables (project Demo.t0) (application Demo.t0)
                            (mkVariableRow 9 1 "TOKEN" None [] "password"
                             :: Demo.rows_A) [])
                      10 1 10 [])
                   "PRJ" "A" 1 [WithClearPassword]
                   (mkVariableRow 9 1 "TOKEN" None [] "password")
                   eq_refl (or_introl eq_refl) _) eq_refl).
  discriminate.
Defined.

(** ** The order of the results *)

Lemma Sorted_insert_by {A : Type} (leb : A -> A -> bool) (x : A) (l : list A) :
  (forall a b, leb a b = false -> leb b a = true) ->
  Sorted (fun a b => leb a b = true) l ->
  Sorted (fun a b => leb a b = true) (insert_by leb x l).
Proof.
  intros Htotal Hl. induction Hl as [|y l Hl IH Hhd]; simpl.
  - repeat constructor.
  - destruct (leb x y) eqn:Hxy.
    + constructor; [constructor; assumption|now constructor].
    + constructor; [exact IH|].
      destruct l as [|z l]; simpl.
      * constructor. now apply Htotal.
      * destruct (leb x z).
        -- constructor. now apply Htotal.
        -- inversion Hhd; subst. now constructor.
Qed.

Lemma Sorted_order_by {A : Type} (leb : A -> A -> bool) (l : list A) :
  (forall a b, leb a b = false -> leb b a = true) ->
  Sorted (fun a b => leb a b = true) (order_by leb l).
Proof.
  intros Htotal. induction l as [|x l IH]; simpl.
  - constructor.
  - now apply Sorted_insert_by.
Qed.

Lemma Sorted_map {A B : Type} (R : A -> A -> Prop) (S : B -> B -> Prop)
    (f : A -> B) (l : list A) :
  (forall a b, R a b -> S (f a) (f b)) ->
  Sorted R l -> Sorted S (map f l).
Proof.
  intros HRS Hl. induction Hl as [|x l Hl IH Hhd]; simpl; constructor.
  - exact IH.
  - destruct Hhd; simpl; constructor. now apply HRS.
Qed.

(** X6. [GetVariableAudit] lists the snapshots latest first: the time of each
    is at least the time of the next one. *)
Theorem GetVariableAudit_latest_first (E : Env) (db db' : DB) (key appName : string)
    (audits : list VariableAudit) :
  GetVariableAudit E db key appName = (db', audits, None) ->
  Sorted (fun a1 a2 => Versionned a2 <= Versionned a1) audits.
Proof.
  intros H. apply GetVariableAudit_inv in H. subst audits.
  apply (Sorted_map (fun r1 r2 => (versionned r2 <=? versionned r1) = true)).
  - intros a b Hab. simpl. now apply Z.leb_le.
  - apply (Sorted_order_by (fun r1 r2 => versionned r2 <=? versionned r1)).
    intros a b Hab. apply Z.leb_gt in Hab. apply Z.leb_le. lia.
Qed.

Lemma GetVariableAudit_latest_first_witness :
  Sorted (fun a1 a2 => Versionned a2 <= Versionned a1)
    [ mkVariableAudit 2 6 [] "alice"; mkVariableAudit 1 5 [] "alice" ].
Proof.
  apply (GetVariableAudit_latest_first Demo.env
           (mkDB (mkTables (project Demo.t0) (application Demo.t0) []
                    [ mkAuditRow 1 5 1 "[]" "alice"; mkAuditRow 2 6 1 "[]" "alice" ])
              1 3 10 [])
           (after_stmt
              (mkDB (mkTables (project Demo.t0) (application Demo.t0) []
                       [ mkAuditRow 1 5 1 "[]" "alice"; mkAuditRow 2 6 1 "[]" "alice" ])
                 1 3 10 []))
           "PRJ" "A").
  reflexivity.
Defined.

(** ** Loading one variable, continued *)

Lemma In_select_variable (t : Tables) (appID : Z) (varName : string)
    (r : VariableRow) :
  In r (select_variable t appID varName) <->
  In r (application_variable t)
  /\ av_application_id r = appID /\ var_name r = varName.
Proof.
  unfold select_variable. rewrite filter_In, andb_true_iff, Z.eqb_eq, String.eqb_eq.
  reflexivity.
Qed.

(** X7. A missing variable: when the application has no variable of that
    name, [LoadVariable] returns [sql.ErrNoRows] and the zero variable. *)
Theorem LoadVariable_missing_variable (E : Env) (db : DB) (appID : Z)
    (varName : string) :
  next_fault db = None ->
  Forall (fun v => av_application_id v <> appID \/ var_name v <> varName)
    (application_variable (tables db)) ->
  LoadVariable E db appID varName = (after_stmt db, zeroVariable, Some ErrNoRows).
Proof.
  intros Hf Hnone. apply LoadVariable_not_found; [assumption|].
  apply select_nil. intros r Hr. apply In_select_variable in Hr.
  destruct Hr as (Hr & Hid & Hname). rewrite Forall_forall in Hnone.
  destruct (Hnone r Hr); contradiction.
Qed.

Lemma LoadVariable_missing_variable_witness :
  LoadVariable Demo.env Demo.db0 2 "ENV" = (after_stmt Demo.db0, zeroVariable, Some ErrNoRows).
Proof.
  apply (LoadVariable_missing_variable Demo.env Demo.db0 2 "ENV").
  - reflexivity.
  - constructor; [left; discriminate|].
    constructor; [left; discriminate|].
    constructor; [right; discriminate|constructor].
Defined.

(** X8. [LoadVariable] on the one row of that name whose clear column is not
    NULL: the variable comes back with the identifier and the kind as they are
    stored (the kind is not normalised), and its value is the placeholder
    when [NeedPlaceholder] holds of the stored kind, the clear column
    otherwise. *)
Theorem LoadVariable_of_clear_row (E : Env) (db : DB) (appID : Z) (varName : string)
    (r : VariableRow) (s : string) :
  next_fault db = None ->
  In r (application_variable (tables db)) ->
  av_application_id r = appID ->
  var_name r = varName ->
  var_value r = Some s ->
  (forall r', In r' (application_variable (tables db)) ->
              av_application_id r' = appID -> var_name r' = varName -> r' = r) ->
  LoadVariable E db appID varName
  = (after_stmt db,
     mkVariable (av_id r) varName
       (if NeedPlaceholder E (var_type r) then PasswordPlaceholder E else s)
       (var_type r), None).
Proof.
  intros Hf Hr Hid Hname Hs Huniq.
  destruct (select_variable (tables db) appID varName) as [|x rows] eqn:Hsel.
  - exfalso.
    assert (Hin : In r (select_variable (tables db) appID varName))
      by (apply In_select_variable; auto).
    rewrite Hsel in Hin. exact Hin.
  - assert (Hx : In x (select_variable (tables db) appID varName))
      by (rewrite Hsel; now left).
    apply In_select_variable in Hx. destruct Hx as (Hx & Hxid & Hxname).
    rewrite (Huniq x Hx Hxid Hxname) in Hsel.
    rewrite (LoadVariable_clear_row E db appID varName r rows s Hf Hsel Hs).
    now rewrite Hname.
Qed.

Lemma LoadVariable_of_clear_row_witness :
  LoadVariable Demo.env Demo.db0 1 "ENV"
  = (after_stmt Demo.db0, mkVariable 2 "ENV" "prod" "string", None).
Proof.
  apply (LoadVariable_of_clear_row Demo.env Demo.db0 1 "ENV"
           (mkVariableRow 2 1 "ENV" (Some "prod") [] "string") "prod").
  - reflexivity.
  - right; left; reflexivity.
  - reflexivity.
  - reflexivity.
  - reflexivity.
  - intros r' [<-|[<-|[<-|[]]]] Hid Hname; try discriminate; reflexivity.
Defined.

(** ** Insertion, continued *)

Lemma filter_existsb_false {A : Type} (f : A -> bool) (l : list A) :
  existsb f l = false -> filter f l = [].
Proof.
  induction l as [|a l IH]; simpl; [reflexivity|].
  destruct (f a); simpl; [discriminate|exact IH].
Qed.

(** What a successful insertion leaves behind. *)
Lemma InsertVariable_ok_inv (E : Env) (db db1 : DB) (applicationID : Z)
    (variable : Variable') (clear : NullString) (cipher : list byte) :
  EncryptS E (Type' variable) (Value variable) = (clear, cipher, None) ->
  InsertVariable E db applicationID variable = (db1, None) ->
  has_variable (tables db) applicationID (Name variable) = false
  /\ application_variable (tables db1)
     = (application_variable (tables db)
        ++ [mkVariableRow (application_variable_id_seq db) applicationID
              (Name variable) clear cipher (Type' variable)])%list
  /\ application_variable_audit (tables db1) = application_variable_audit (tables db)
  /\ project (tables db1) = project (tables db).
Proof.
  intros HEnc H. unfold InsertVariable in H. rewrite HEnc in H.
  rewrite Exec_insert_variable_eq in H.
  destruct (next_fault db) as [msg|].
  { simpl in H. destruct (Contains msg _); discriminate. }
  destruct (has_variable (tables db) applicationID (Name variable)).
  { simpl in H. discriminate. }
  unfold UpdateLastModified in H. rewrite Exec_touch_application_eq in H.
  destruct (next_fault _) as [msg|]; [discriminate|].
  injection H as <-. simpl. auto.
Qed.

(** X9. Insert, then load by name: after a successful [InsertVariable],
    [LoadVariable] finds the new row. When [EncryptS] put the value in the
    clear column it returns the variable, with the placeholder for a value if
    the kind needs one; when [EncryptS] left the clear column NULL it fails
    with the conversion error of [Scan]. *)
Theorem LoadVariable_after_InsertVariable (E : Env) (db db1 : DB)
    (applicationID : Z) (variable : Variable') (clear : NullString)
    (cipher : list byte) :
  EncryptS E (Type' variable) (Value variable) = (clear, cipher, None) ->
  InsertVariable E db applicationID variable = (db1, None) ->
  next_fault db1 = None ->
  match clear with
  | Some s =>
      LoadVariable E db1 applicationID (Name variable)
      = (after_stmt db1,
         mkVariable (application_variable_id_seq db) (Name variable)
           (if NeedPlaceholder E (Type' variable) then PasswordPlaceholder E else s)
           (Type' variable), None)
  | None =>
      exists msg,
        LoadVariable E db1 applicationID (Name variable)
        = (after_stmt db1,
           mkVariable (application_variable_id_seq db) (Name variable) "" "",
           Some (ErrScan msg))
  end.
Proof.
  intros HEnc HI Hf.
  destruct (InsertVariable_ok_inv E db db1 applicationID variable clear cipher HEnc HI)
    as (Hnew & Hvars & _).
  set (row := mkVariableRow (application_variable_id_seq db) applicationID
                (Name variable) clear cipher (Type' variable)).
  assert (Hsel : select_variable (tables db1) applicationID (Name variable) = [row]).
  { unfold select_variable. rewrite Hvars, filter_app.
    unfold has_variable in Hnew. rewrite (filter_existsb_false _ _ Hnew).
    simpl. now rewrite Z.eqb_refl, String.eqb_refl. }
  destruct clear as [s|].
  - apply (LoadVariable_clear_row E db1 applicationID (Name variable) row [] s);
      auto.
  - apply (LoadVariable_null_clear_column E db1 applicationID (Name variable) row []);
      auto.
Qed.

Lemma LoadVariable_after_InsertVariable_witness :
  LoadVariable Demo.env
    (fst (InsertVariable Demo.env Demo.db0 1 (mkVariable 0 "REGION" "eu" "string")))
    1 "REGION"
  = (after_stmt
       (fst (InsertVariable Demo.env Demo.db0 1 (mkVariable 0 "REGION" "eu" "string"))),
     mkVariable 4 "REGION" "eu" "string", None).
Proof.
  apply (LoadVariable_after_InsertVariable Demo.env Demo.db0
           (fst (InsertVariable Demo.env Demo.db0 1 (mkVariable 0 "REGION" "eu" "string")))
           1 (mkVariable 0 "REGION" "eu" "string") (Some "eu") []);
    reflexivity.
Defined.

(** X10. Insert, then list: after a successful [InsertVariable], every
    successful listing of the application whose statement runs, its rows
    delivered, holds the new variable, under its name, with the normalised
    kind, and with the value [DecryptS] makes of what [EncryptS] returned. *)
Theorem GetAllVariableByID_after_InsertVariable (E : Env) (db db1 db2 : DB)
    (applicationID : Z) (variable : Variable') (clear : NullString)
    (cipher : list byte) (fargs : list FuncArg) (variables : list Variable') :
  EncryptS E (Type' variable) (Value variable) = (clear, cipher, None) ->
  InsertVariable E db applicationID variable = (db1, None) ->
  next_fault db1 = None ->
  GetAllVariableByID E db1 applicationID fargs = (db2, variables, None) ->
  exists v,
    In v variables
    /\ ID v = application_variable_id_seq db
    /\ Name v = Name variable
    /\ Type' v = VariableTypeFromString E (Type' variable)
    /\ DecryptS E (VariableTypeFromString E (Type' variable)) clear cipher
         (clearsecret (apply_args fargs)) = (Value v, None).
Proof.
  intros HEnc HI Hf1 HG.
  destruct (InsertVariable_ok_inv E db db1 applicationID variable clear cipher HEnc HI)
    as (_ & Hvars & _).
  set (row := mkVariableRow (application_variable_id_seq db) applicationID
                (Name variable) clear cipher (Type' variable)) in *.
  unfold GetAllVariableByID in HG.
  rewrite (Query_ok db1 _ Hf1) in HG.
  destruct (GetAllVariableByID_rows E _ _ _) as [vars err] eqn:Hrows.
  injection HG as _ <- ->.
  apply GetAllVariableByID_rows_inv in Hrows. destruct Hrows as [Hall ->].
  assert (Hrow : In row (select_variables_by_id (tables db1) applicationID)).
  { apply In_select_variables_by_id. split; [|reflexivity].
    rewrite Hvars. apply in_or_app. right. now left. }
  exists (decrypt_variable E (apply_args fargs) row). simpl.
  split; [now apply in_map|]. repeat split.
  rewrite Forall_forall in Hall. specialize (Hall row Hrow).
  unfold decrypt_value, row_type in *. simpl in *.
  destruct (DecryptS E _ _ _ _) as [val err]. simpl in *. now subst.
Qed.

Lemma GetAllVariableByID_after_InsertVariable_witness :
  exists v,
    In v [ mkVariable 1 "DB_PASS" "s3cr3t" "password";
           mkVariable 2 "ENV" "prod" "string";
           mkVariable 4 "TOKEN" "t0k3n" "password" ]
    /\ ID v = 4
    /\ Name v = "TOKEN"
    /\ Type' v = "password"
    /\ Demo.DecryptS "password" None (Demo.Encrypt "t0k3n") true = (Value v, None).
Proof.
  apply (GetAllVariableByID_after_InsertVariable Demo.env Demo.db0
           (fst (InsertVariable Demo.env Demo.db0 1
                   (mkVariable 0 "TOKEN" "t0k3n" "password")))
           (after_stmt
              (fst (InsertVariable Demo.env Demo.db0 1
                      (mkVariable 0 "TOKEN" "t0k3n" "password"))))
           1 (mkVariable 0 "TOKEN" "t0k3n" "password") None (Demo.Encrypt "t0k3n")
           [WithClearPassword]);
    reflexivity.
Defined.

Lemma next_fault_after_stmt (db : DB) (o : option string) (rest : list (option string)) :
  tl (faults db) = o :: rest -> next_fault (after_stmt db) = o.
Proof.
  intros H. rewrite after_stmt_eq. unfold next_fault. simpl. rewrite H.
  now destruct o.
Qed.

(** X11. The same name twice: after a successful [InsertVariable], a second
    one for that application and that name fails with [ErrVariableExists],
    whatever its kind and value, and leaves every table as it was: the first
    variable stays. *)
Theorem InsertVariable_twice_fails (E : Env) (db db1 : DB) (applicationID : Z)
    (first second : Variable') (clear1 clear2 : NullString)
    (cipher1 cipher2 : list byte) :
  EncryptS E (Type' first) (Value first) = (clear1, cipher1, None) ->
  InsertVariable E db applicationID first = (db1, None) ->
  Name second = Name first ->
  EncryptS E (Type' second) (Value second) = (clear2, cipher2, None) ->
  next_fault db1 = None ->
  exists db2,
    InsertVariable E db1 applicationID second = (db2, Some ErrVariableExists)
    /\ tables db2 = tables db1.
Proof.
  intros HEnc1 HI Hname HEnc2 Hf.
  destruct (InsertVariable_ok_inv E db db1 applicationID first clear1 cipher1 HEnc1 HI)
    as (_ & Hvars & _).
  assert (Hhas : has_variable (tables db1) applicationID (Name second) = true).
  { unfold has_variable. rewrite Hvars, existsb_app. simpl.
    now rewrite Hname, Z.eqb_refl, String.eqb_refl, orb_true_r. }
  unfold InsertVariable. rewrite HEnc2, Exec_insert_variable_eq, Hf, Hhas.
  eexists. split; reflexivity.
Qed.

Lemma InsertVariable_twice_fails_witness :
  exists db2,
    InsertVariable Demo.env
      (fst (InsertVariable Demo.env Demo.db0 1 (mkVariable 0 "REGION" "eu" "string")))
      1 (mkVariable 0 "REGION" "s3cr3t" "password")
    = (db2, Some ErrVariableExists)
    /\ tables db2
       = tables (fst (InsertVariable Demo.env Demo.db0 1
                        (mkVariable 0 "REGION" "eu" "string"))).
Proof.
  apply (InsertVariable_twice_fails Demo.env Demo.db0
           (fst (InsertVariable Demo.env Demo.db0 1 (mkVariable 0 "REGION" "eu" "string")))
           1 (mkVariable 0 "REGION" "eu" "string")
           (mkVariable 0 "REGION" "s3cr3t" "password")
           (Some "eu") None [] (Demo.Encrypt "s3cr3t"));
    reflexivity.
Defined.

(** X12. The insertion and the bump of [last_modified] are two statements:
    when the first runs and the second fails, [InsertVariable] returns the
    error of the second, the new row is stored all the same and
    [last_modified] is not changed. *)
Theorem InsertVariable_is_not_atomic (E : Env) (db : DB) (applicationID : Z)
    (variable : Variable') (clear : NullString) (cipher : list byte)
    (msg : string) (rest : list (option string)) :
  EncryptS E (Type' variable) (Value variable) = (clear, cipher, None) ->
  has_variable (tables db) applicationID (Name variable) = false ->
  faults db = None :: Some msg :: rest ->
  exists db2,
    InsertVariable E db applicationID variable = (db2, Some (ErrDriver msg))
    /\ In (mkVariableRow (application_variable_id_seq db) applicationID
             (Name variable) clear cipher (Type' variable))
         (application_variable (tables db2))
    /\ application (tables db2) = application (tables db).
Proof.
  intros HEnc Hnew Hfaults.
  assert (Hf : next_fault db = None) by (unfold next_fault; now rewrite Hfaults).
  unfold InsertVariable. rewrite HEnc, Exec_insert_variable_eq, Hf, Hnew.
  unfold UpdateLastModified. rewrite Exec_touch_application_eq.
  unfold next_fault at 1. simpl. rewrite Hfaults. simpl.
  eexists. split; [reflexivity|]. simpl. split; [|reflexivity].
  apply in_or_app. right. now left.
Qed.

Lemma InsertVariable_is_not_atomic_witness :
  exists db2,
    InsertVariable Demo.env (mkDB Demo.t0 4 1 10 [None; Some "pq: connection lost"])
      1 (mkVariable 0 "REGION" "eu" "string")
    = (db2, Some (ErrDriver "pq: connection lost"))
    /\ In (mkVariableRow 4 1 "REGION" (Some "eu") [] "string")
         (application_variable (tables db2))
    /\ application (tables db2) = application Demo.t0.
Proof.
  apply (InsertVariable_is_not_atomic Demo.env
           (mkDB Demo.t0 4 1 10 [None; Some "pq: connection lost"]) 1
           (mkVariable 0 "REGION" "eu" "string") (Some "eu") []
           "pq: connection lost" []);
    reflexivity.
Defined.

(** ** Updating and deleting *)

Lemma Tables_eta (t : Tables) :
  mkTables (project t) (application t) (application_variable t)
    (application_variable_audit t) = t.
Proof. now destruct t. Qed.

Lemma set_tables_same (db : DB) : set_tables db (tables db) = db.
Proof. now destruct db. Qed.

Lemma map_if_false {A : Type} (hit : A -> bool) (f : A -> A) (l : list A) :
  existsb hit l = false -> map (fun a => if hit a then f a else a) l = l.
Proof.
  induction l as [|a l IH]; simpl; [reflexivity|].
  destruct (hit a); simpl; [discriminate|]. intros H. now rewrite IH.
Qed.

Lemma filter_negb_existsb_false {A : Type} (hit : A -> bool) (l : list A) :
  existsb hit l = false -> filter (fun a => negb (hit a)) l = l.
Proof.
  induction l as [|a l IH]; simpl; [reflexivity|].
  destruct (hit a); simpl; [discriminate|]. intros H. now rewrite IH.
Qed.

Lemma length_filter_zero {A : Type} (hit : A -> bool) (l : list A) :
  (Z.of_nat (List.length (filter hit l)) =? 0) = negb (existsb hit l).
Proof.
  induction l as [|a l IH]; simpl; [reflexivity|].
  destruct (hit a); simpl; [reflexivity|exact IH].
Qed.

Lemma Exec_update_variable_eq (db : DB) (clear : NullString) (cipher : list byte)
    (type : string) (applicationID : Z) (name : string) :
  Exec_update_variable db clear cipher type applicationID name =
  match next_fault db with
  | Some msg => (after_stmt db, 0, Some (ErrDriver msg))
  | None =>
      let hit v := (av_application_id v =? applicationID)
                   && String.eqb (var_name v) name in
      (set_tables (after_stmt db)
         (mkTables (project (tables db)) (application (tables db))
            (map (fun v => if hit v
                           then mkVariableRow (av_id v) (av_application_id v)
                                  (var_name v) clear cipher type
                           else v)
               (application_variable (tables db)))
            (application_variable_audit (tables db))),
       Z.of_nat (List.length (filter hit (application_variable (tables db)))), None)
  end.
Proof.
  unfold Exec_update_variable. rewrite begin_stmt_cases.
  destruct (next_fault db); simpl; [reflexivity|].
  now rewrite tables_after_stmt.
Qed.

(** X13. Updating a variable the application does not have: when the value is
    not the sentinel of a secret and is encrypted, and the statement reaches
    the store, [UpdateVariable] returns [ErrNoVariable]; no table is changed
    and [last_modified] is not bumped. *)
Theorem UpdateVariable_missing_variable (E : Env) (db : DB) (applicationID : Z)
    (variable : Variable') (clear : NullString) (cipher : list byte) :
  NeedPlaceholder E (Type' variable)
  && String.eqb (Value variable) (PasswordPlaceholder E) = false ->
  EncryptS E (Type' variable) (Value variable) = (clear, cipher, None) ->
  next_fault db = None ->
  has_variable (tables db) applicationID (Name variable) = false ->
  UpdateVariable E db applicationID variable = (after_stmt db, Some ErrNoVariable).
Proof.
  intros Hguard HEnc Hf Hnone. unfold UpdateVariable.
  rewrite Hguard, HEnc, Exec_update_variable_eq, Hf. cbn zeta.
  unfold has_variable in Hnone. unfold RowsAffected.
  rewrite length_filter_zero, Hnone. simpl.
  rewrite (map_if_false _ _ _ Hnone), Tables_eta.
  rewrite <- (tables_after_stmt db) at 1. now rewrite set_tables_same.
Qed.

Lemma UpdateVariable_missing_variable_witness :
  UpdateVariable Demo.env Demo.db0 2 (mkVariable 0 "ENV" "staging" "string")
  = (after_stmt Demo.db0, Some ErrNoVariable).
Proof.
  apply (UpdateVariable_missing_variable Demo.env Demo.db0 2
           (mkVariable 0 "ENV" "staging" "string") (Some "staging") []);
    reflexivity.
Defined.

(** What a successful update leaves behind. *)
Lemma UpdateVariable_ok_inv (E : Env) (db db2 : DB)
    (applicationID : Z) (variable : Variable') (clear : NullString)
    (cipher : list byte) :
  NeedPlaceholder E (Type' variable)
  && String.eqb (Value variable) (PasswordPlaceholder E) = false ->
  EncryptS E (Type' variable) (Value variable) = (clear, cipher, None) ->
  UpdateVariable E db applicationID variable = (db2, None) ->
  has_variable (tables db) applicationID (Name variable) = true
  /\ application_variable (tables db2)
     = map (fun r =>
              if (av_application_id r =? applicationID)
                 && String.eqb (var_name r) (Name variable)
              then mkVariableRow (av_id r) (av_application_id r) (var_name r)
                     clear cipher (Type' variable)
              else r)
         (application_variable (tables db))
  /\ Forall (fun a => application_id a = applicationID -> last_modified a = clock db2)
       (application (tables db2)).
Proof.
  intros Hguard HEnc H. unfold UpdateVariable in H.
  rewrite Hguard, HEnc, Exec_update_variable_eq in H.
  destruct (next_fault db) as [msg|]; [discriminate|].
  cbn zeta in H. unfold RowsAffected in H.
  rewrite length_filter_zero in H. fold (has_variable (tables db) applicationID
                                           (Name variable)) in H.
  destruct (has_variable (tables db) applicationID (Name variable));
    [|discriminate].
  simpl in H. apply UpdateLastModified_ok in H. destruct H as [Hvars Happ].
  split; [reflexivity|]. split; [|exact Happ]. exact Hvars.
Qed.

(** X14. A successful [UpdateVariable] that is not the no-op of the sentinel
    found the variable, and rewrote the clear column, the cipher column and
    the kind of the rows of that application and that name, with what
    [EncryptS] returned and the kind it was given; their identifier is kept,
    every other row of the table is as it was, and the rows of the application
    carry the time of the bump. *)
Theorem UpdateVariable_rewrites_the_named_rows (E : Env) (db db2 : DB)
    (applicationID : Z) (variable : Variable') (clear : NullString)
    (cipher : list byte) :
  NeedPlaceholder E (Type' variable)
  && String.eqb (Value variable) (PasswordPlaceholder E) = false ->
  EncryptS E (Type' variable) (Value variable) = (clear, cipher, None) ->
  UpdateVariable E db applicationID variable = (db2, None) ->
  has_variable (tables db) applicationID (Name variable) = true
  /\ application_variable (tables db2)
     = map (fun r =>
              if (av_application_id r =? applicationID)
                 && String.eqb (var_name r) (Name variable)
              then mkVariableRow (av_id r) (av_application_id r) (var_name r)
                     clear cipher (Type' variable)
              else r)
         (application_variable (tables db))
  /\ Forall (fun a => application_id a = applicationID -> last_modified a = clock db2)
       (application (tables db2)).
Proof. apply UpdateVariable_ok_inv. Qed.

Lemma UpdateVariable_rewrites_the_named_rows_witness :
  application_variable
    (tables (fst (UpdateVariable Demo.env Demo.db0 1
                    (mkVariable 0 "ENV" "staging" "text"))))
  = [ mkVariableRow 1 1 "DB_PASS" None (Demo.Encrypt "s3cr3t") "password";
      mkVariableRow 2 1 "ENV" (Some "staging") [] "text";
      mkVariableRow 3 2 "DB_PASS" None (Demo.Encrypt "hunter2") "password" ].
Proof.
  apply (UpdateVariable_rewrites_the_named_rows Demo.env Demo.db0
           (fst (UpdateVariable Demo.env Demo.db0 1
                   (mkVariable 0 "ENV" "staging" "text")))
           1 (mkVariable 0 "ENV" "staging" "text") (Some "staging") []);
    reflexivity.
Defined.

Lemma Exec_delete_variable_eq (db : DB) (applicationID : Z) (name : string) :
  Exec_delete_variable db applicationID name =
  match next_fault db with
  | Some msg => (after_stmt db, 0, Some (ErrDriver msg))
  | None =>
      let hit v := existsb (fun a => (application_id a =? applicationID)
                                     && String.eqb (var_name v) name)
                     (application (tables db)) in
      (set_tables (after_stmt db)
         (mkTables (project (tables db)) (application (tables db))
            (filter (fun v => negb (hit v)) (application_variable (tables db)))
            (application_variable_audit (tables db))),
       Z.of_nat (List.length (filter hit (application_variable (tables db)))), None)
  end.
Proof.
  unfold Exec_delete_variable. rewrite begin_stmt_cases.
  destruct (next_fault db); simpl; [reflexivity|].
  now rewrite tables_after_stmt.
Qed.

Lemma existsb_delete_hit (t : Tables) (applicationID : Z) (name : string) :
  existsb (fun v => existsb (fun a => (application_id a =? applicationID)
                                      && String.eqb (var_name v) name)
                      (application t))
    (application_variable t)
  = existsb (fun a => application_id a =? applicationID) (application t)
    && existsb (fun v => String.eqb (var_name v) name) (application_variable t).
Proof.
  induction (application_variable t) as [|v vs IH]; simpl.
  - now rewrite andb_false_r.
  - rewrite IH, existsb_andb_const.
    destruct (existsb _ (application t)), (String.eqb (var_name v) name); reflexivity.
Qed.

(** X15. When the statements reach the store, [DeleteVariable] succeeds
    exactly when an application has the identifier and some variable, of
    whatever application, has the name; otherwise it returns [ErrNoVariable]
    and changes no table. *)
Theorem DeleteVariable_succeeds_iff (db : DB) (applicationID : Z)
    (variableName : string) :
  faults db = [] ->
  (snd (DeleteVariable db applicationID variableName) = None
   <-> (exists a, In a (application (tables db)) /\ application_id a = applicationID)
       /\ (exists v, In v (application_variable (tables db))
                     /\ var_name v = variableName))
  /\ (snd (DeleteVariable db applicationID variableName) <> None ->
      DeleteVariable db applicationID variableName
      = (after_stmt db, Some ErrNoVariable)).
Proof.
  intros Hfaults.
  assert (Hf : next_fault db = None) by (unfold next_fault; now rewrite Hfaults).
  assert (Hex : (existsb (fun a => application_id a =? applicationID)
                   (application (tables db))
                 && existsb (fun v => String.eqb (var_name v) variableName)
                      (application_variable (tables db))) = true
                <-> (exists a, In a (application (tables db))
                               /\ application_id a = applicationID)
                    /\ (exists v, In v (application_variable (tables db))
                                  /\ var_name v = variableName)).
  { rewrite andb_true_iff, !existsb_exists.
    split; intros [(a & Ha & Hid) (v & Hv & Hname)]; split.
    - exists a. split; [assumption|now apply Z.eqb_eq].
    - exists v. split; [assumption|now apply String.eqb_eq].
    - exists a. split; [assumption|now apply Z.eqb_eq].
    - exists v. split; [assumption|now apply String.eqb_eq]. }
  rewrite <- Hex. clear Hex.
  unfold DeleteVariable. rewrite Exec_delete_variable_eq, Hf. cbn zeta.
  unfold RowsAffected. rewrite length_filter_zero, existsb_delete_hit.
  destruct (existsb _ (application (tables db))
            && existsb _ (application_variable (tables db))) eqn:Hhit.
  - simpl. unfold UpdateLastModified. rewrite Exec_touch_application_eq.
    unfold next_fault. rewrite after_stmt_eq. simpl. rewrite Hfaults. simpl.
    split; [split; auto|]. intros H. now contradiction H.
  - simpl. split; [split; intros; discriminate|]. intros _.
    rewrite filter_negb_existsb_false by (now rewrite existsb_delete_hit).
    rewrite Tables_eta. rewrite <- (tables_after_stmt db) at 1.
    now rewrite set_tables_same.
Qed.

Lemma DeleteVariable_succeeds_iff_witness :
  snd (DeleteVariable Demo.db0 2 "ENV") = None.
Proof.
  apply (proj1 (DeleteVariable_succeeds_iff Demo.db0 2 "ENV" eq_refl)).
  split.
  - exists (mkApplicationRow 2 "B" 1 0). split; [right; left|]; reflexivity.
  - exists (mkVariableRow 2 1 "ENV" (Some "prod") [] "string").
    split; [right; left|]; reflexivity.
Defined.

(** X16. A successful [DeleteVariable] removes the name everywhere: the
    variables left are those of the table whose name is another one, whatever
    their application; no variable of that name is left in any application,
    and no variable of another name is touched. *)
Theorem DeleteVariable_removes_the_name_everywhere (db db1 : DB) (applicationID : Z)
    (variableName : string) :
  DeleteVariable db applicationID variableName = (db1, None) ->
  forall v,
    In v (application_variable (tables db1))
    <-> In v (application_variable (tables db)) /\ var_name v <> variableName.
Proof.
  intros H v. rewrite (DeleteVariable_deletes_by_name _ _ _ _ H).
  rewrite filter_In, negb_true_iff, String.eqb_neq. reflexivity.
Qed.

Lemma DeleteVariable_removes_the_name_everywhere_witness :
  In (mkVariableRow 2 1 "ENV" (Some "prod") [] "string")
    (application_variable (tables (fst (DeleteVariable Demo.db0 1 "DB_PASS"))))
  /\ ~ In (mkVariableRow 3 2 "DB_PASS" None (Demo.Encrypt "hunter2") "password")
         (application_variable (tables (fst (DeleteVariable Demo.db0 1 "DB_PASS")))).
Proof.
  split.
  - apply (DeleteVariable_removes_the_name_everywhere Demo.db0
             (fst (DeleteVariable Demo.db0 1 "DB_PASS")) 1 "DB_PASS" eq_refl).
    split; [right; left; reflexivity|discriminate].
  - intros Hin.
    apply (DeleteVariable_removes_the_name_everywhere Demo.db0
             (fst (DeleteVariable Demo.db0 1 "DB_PASS")) 1 "DB_PASS" eq_refl) in Hin.
    destruct Hin as [_ Hname]. now apply Hname.
Defined.

Lemma Exec_delete_all_variables_eq (db : DB) (applicationID : Z) :
  Exec_delete_all_variables db applicationID =
  match next_fault db with
  | Some msg => (after_stmt db, 0, Some (ErrDriver msg))
  | None =>
      (set_tables (after_stmt db)
         (mkTables (project (tables db)) (application (tables db))
            (filter (fun v => negb (av_application_id v =? applicationID))
               (application_variable (tables db)))
            (application_variable_audit (tables db))),
       Z.of_nat (List.length (filter (fun v => av_application_id v =? applicationID)
                                (application_variable (tables db)))), None)
  end.
Proof.
  unfold Exec_delete_all_variables. rewrite begin_stmt_cases.
  destruct (next_fault db); simpl; [reflexivity|].
  now rewrite tables_after_stmt.
Qed.

Lemma filter_filter_other (l : list VariableRow) (applicationID other : Z) :
  other <> applicationID ->
  filter (fun v => av_application_id v =? other)
    (filter (fun v => negb (av_application_id v =? applicationID)) l)
  = filter (fun v => av_application_id v =? other) l.
Proof.
  intros Hother. induction l as [|v l IH]; simpl; [reflexivity|].
  destruct (av_application_id v =? applicationID) eqn:Hid; simpl.
  - apply Z.eqb_eq in Hid.
    rewrite (proj2 (Z.eqb_neq (av_application_id v) other)) by congruence.
    exact IH.
  - now rewrite IH.
Qed.

Lemma filter_filter_same (l : list VariableRow) (applicationID : Z) :
  filter (fun v => av_application_id v =? applicationID)
    (filter (fun v => negb (av_application_id v =? applicationID)) l) = [].
Proof.
  induction l as [|v l IH]; simpl; [reflexivity|].
  destruct (av_application_id v =? applicationID) eqn:Hid; simpl;
    [exact IH|now rewrite Hid].
Qed.

(** X17. [DeleteAllVariable] needs no variable to delete: when its two
    statements reach the store it succeeds, whether or not the application
    has variables or exists at all. Afterwards the application has no
    variable, the variables of every other application are listed as before,
    the snapshots are as they were and the rows of the application carry the
    time of the bump. *)
Theorem DeleteAllVariable_wipes_one_application (db : DB) (applicationID : Z) :
  next_fault db = None ->
  next_fault (after_stmt db) = None ->
  exists db2,
    DeleteAllVariable db applicationID = (db2, None)
    /\ select_variables_by_id (tables db2) applicationID = []
    /\ (forall other, other <> applicationID ->
          select_variables_by_id (tables db2) other
          = select_variables_by_id (tables db) other)
    /\ application_variable_audit (tables db2) = application_variable_audit (tables db)
    /\ Forall (fun a => application_id a = applicationID ->
                        last_modified a = clock db2)
         (application (tables db2)).
Proof.
  intros Hf1 Hf2. unfold DeleteAllVariable.
  rewrite Exec_delete_all_variables_eq, Hf1, Exec_touch_application_eq.
  assert (Hf : next_fault (set_tables (after_stmt db)
                 (mkTables (project (tables db)) (application (tables db))
                    (filter (fun v => negb (av_application_id v =? applicationID))
                       (application_variable (tables db)))
                    (application_variable_audit (tables db)))) = None)
    by exact Hf2.
  rewrite Hf. eexists. split; [reflexivity|]. simpl.
  unfold select_variables_by_id. simpl. repeat split.
  - now rewrite filter_filter_same.
  - intros other Hother. now rewrite filter_filter_other.
  - apply Forall_forall. intros a Ha. apply in_map_iff in Ha.
    destruct Ha as (a0 & <- & _).
    destruct (application_id a0 =? applicationID) eqn:Hid; simpl.
    + reflexivity.
    + intros Heq. apply Z.eqb_neq in Hid. contradiction.
Qed.

Lemma DeleteAllVariable_wipes_one_application_witness :
  exists db2,
    DeleteAllVariable Demo.db0 7 = (db2, None)
    /\ select_variables_by_id (tables db2) 7 = []
    /\ (forall other, other <> 7 ->
          select_variables_by_id (tables db2) other
          = select_variables_by_id (tables Demo.db0) other)
    /\ application_variable_audit (tables db2) = []
    /\ Forall (fun a => application_id a = 7 -> last_modified a = clock db2)
         (application (tables db2)).
Proof.
  apply (DeleteAllVariable_wipes_one_application Demo.db0 7); reflexivity.
Defined.

(** X18. The deletion and the bump are two statements: when the first runs
    and the second fails, [DeleteAllVariable] returns the error of the
    second, and the variables of the application are deleted all the same;
    [last_modified] is not changed. *)
Theorem DeleteAllVariable_is_not_atomic (db : DB) (applicationID : Z)
    (msg : string) (rest : list (option string)) :
  faults db = None :: Some msg :: rest ->
  exists db2,
    DeleteAllVariable db applicationID = (db2, Some (ErrDriver msg))
    /\ select_variables_by_id (tables db2) applicationID = []
    /\ application (tables db2) = application (tables db).
Proof.
  intros Hfaults.
  assert (Hf : next_fault db = None) by (unfold next_fault; now rewrite Hfaults).
  unfold DeleteAllVariable.
  rewrite Exec_delete_all_variables_eq, Hf, Exec_touch_application_eq.
  unfold next_fault at 1. rewrite after_stmt_eq. simpl. rewrite Hfaults. simpl.
  eexists. split; [reflexivity|]. simpl. split; [|reflexivity].
  unfold select_variables_by_id. simpl. now rewrite filter_filter_same.
Qed.

Lemma DeleteAllVariable_is_not_atomic_witness :
  exists db2,
    DeleteAllVariable (mkDB Demo.t0 4 1 10 [None; Some "pq: connection lost"]) 1
    = (db2, Some (ErrDriver "pq: connection lost"))
    /\ select_variables_by_id (tables db2) 1 = []
    /\ application (tables db2) = application Demo.t0.
Proof.
  apply (DeleteAllVariable_is_not_atomic
           (mkDB Demo.t0 4 1 10 [None; Some "pq: connection lost"]) 1
           "pq: connection lost" []).
  reflexivity.
Defined.

Lemma filter_map_update (clear : NullString) (cipher : list byte) (type : string)
    (applicationID : Z) (name : string) (l : list VariableRow) :
  filter (fun v => (av_application_id v =? applicationID)
                   && String.eqb (var_name v) name)
    (map (fun r => if (av_application_id r =? applicationID)
                      && String.eqb (var_name r) name
                   then mkVariableRow (av_id r) (av_application_id r) (var_name r)
                          clear cipher type
                   else r) l)
  = map (fun r => mkVariableRow (av_id r) (av_application_id r) (var_name r)
                    clear cipher type)
      (filter (fun v => (av_application_id v =? applicationID)
                        && String.eqb (var_name v) name) l).
Proof.
  induction l as [|r l IH]; simpl; [reflexivity|].
  destruct ((av_application_id r =? applicationID) && String.eqb (var_name r) name)
    eqn:Hhit; simpl; rewrite Hhit; simpl; now rewrite IH.
Qed.

(** X19. Update, then load by name: after a successful [UpdateVariable] that
    is not the no-op of the sentinel and whose value [EncryptS] put in the
    clear column, [LoadVariable] returns the variable with the new kind, and
    with the new value, or the placeholder if the new kind needs one. *)
Theorem LoadVariable_after_UpdateVariable (E : Env) (db db2 : DB)
    (applicationID : Z) (variable : Variable') (s : string) (cipher : list byte) :
  NeedPlaceholder E (Type' variable)
  && String.eqb (Value variable) (PasswordPlaceholder E) = false ->
  EncryptS E (Type' variable) (Value variable) = (Some s, cipher, None) ->
  UpdateVariable E db applicationID variable = (db2, None) ->
  next_fault db2 = None ->
  exists id,
    LoadVariable E db2 applicationID (Name variable)
    = (after_stmt db2,
       mkVariable id (Name variable)
         (if NeedPlaceholder E (Type' variable) then PasswordPlaceholder E else s)
         (Type' variable), None).
Proof.
  intros Hguard HEnc HU Hf.
  destruct (UpdateVariable_ok_inv E db db2 applicationID variable
              (Some s) cipher Hguard HEnc HU) as (Hhas & Hvars & _).
  assert (Hsel : select_variable (tables db2) applicationID (Name variable)
                 = map (fun r => mkVariableRow (av_id r) (av_application_id r)
                                   (var_name r) (Some s) cipher (Type' variable))
                     (select_variable (tables db) applicationID (Name variable))).
  { unfold select_variable. rewrite Hvars. apply filter_map_update. }
  destruct (select_variable (tables db) applicationID (Name variable))
    as [|r rows] eqn:Hold.
  - exfalso. unfold has_variable in Hhas. apply existsb_exists in Hhas.
    destruct Hhas as (x & Hx & Hhit).
    assert (Hin : In x (select_variable (tables db) applicationID (Name variable)))
      by (unfold select_variable; apply filter_In; now split).
    rewrite Hold in Hin. exact Hin.
  - assert (Hr : In r (select_variable (tables db) applicationID (Name variable)))
      by (rewrite Hold; now left).
    apply In_select_variable in Hr. destruct Hr as (_ & _ & Hname).
    simpl in Hsel. exists (av_id r).
    rewrite (LoadVariable_clear_row E db2 applicationID (Name variable) _ _ s Hf Hsel
               eq_refl).
    simpl. now rewrite Hname.
Qed.

Lemma LoadVariable_after_UpdateVariable_witness :
  exists id,
    LoadVariable Demo.env
      (fst (UpdateVariable Demo.env Demo.db0 1 (mkVariable 0 "ENV" "staging" "text")))
      1 "ENV"
    = (after_stmt
         (fst (UpdateVariable Demo.env Demo.db0 1
                 (mkVariable 0 "ENV" "staging" "text"))),
       mkVariable id "ENV" "staging" "text", None).
Proof.
  apply (LoadVariable_after_UpdateVariable Demo.env Demo.db0
           (fst (UpdateVariable Demo.env Demo.db0 1
                   (mkVariable 0 "ENV" "staging" "text")))
           1 (mkVariable 0 "ENV" "staging" "text") "staging" []);
    reflexivity.
Defined.

(** ** The audit trail, continued *)

Lemma joined_owner_tables (t t' : Tables) (id : Z) (appName key : string) :
  project t' = project t ->
  application t' = application t ->
  joined_owner t' id appName key = joined_owner t id appName key.
Proof. intros Hp Ha. unfold joined_owner. now rewrite Hp, Ha. Qed.

(** What a successful recording leaves behind. *)
Lemma CreateAudit_ok_inv (E : Env) (db dbq db1 : DB) (key : string)
    (app : Application) (u : User) (recorded : list Variable') :
  GetAllVariable E db key (Application_Name app) [WithEncryptPassword]
  = (dbq, recorded, None) ->
  CreateAudit E db key app u = (db1, None) ->
  exists data,
    Marshal E (map (CreateAudit_encode E) recorded) = (data, None)
    /\ project (tables db1) = project (tables db)
    /\ application (tables db1) = application (tables db)
    /\ application_variable (tables db1) = application_variable (tables db)
    /\ application_variable_audit (tables db1)
       = (application_variable_audit (tables db)
          ++ [mkAuditRow (application_variable_audit_id_seq db) (clock db1)
                (Application_ID app) (string_of_list_byte data) (Username u)])%list.
Proof.
  intros HG HC. unfold CreateAudit in HC. rewrite HG in HC.
  destruct (Marshal E _) as [data [e|]] eqn:HM; [discriminate|].
  apply GetAllVariable_inv in HG. destruct HG as (_ & -> & _ & _).
  destruct (Exec_insert_audit _ _ _ _) as [[db2 res] err] eqn:HX.
  injection HC as -> ->.
  pose proof (Exec_insert_audit_inv _ _ _ _ _ _ HX) as Hf2.
  rewrite (Exec_insert_audit_ok _ _ _ _ Hf2) in HX. injection HX as <- _.
  exists data. simpl. rewrite (after_stmt_eq db). simpl. auto.
Qed.

Lemma Exec_insert_audit_tables (db db' : DB) (applicationID : Z)
    (data author : string) (res : Result) (e : error) :
  Exec_insert_audit db applicationID data author = (db', res, Some e) ->
  tables db' = tables db.
Proof.
  unfold Exec_insert_audit. rewrite begin_stmt_cases.
  destruct (next_fault db); simpl; [|discriminate].
  intros [= <- _ _]. apply tables_after_stmt.
Qed.

(** X20. [CreateAudit] writes to the table of the snapshots only: whatever
    its outcome, the projects, the applications and the variables are as they
    were; and when it returns an error no snapshot was stored. *)
Theorem CreateAudit_changes_only_the_audit_table (E : Env) (db db1 : DB)
    (key : string) (app : Application) (u : User) (err : option error) :
  CreateAudit E db key app u = (db1, err) ->
  project (tables db1) = project (tables db)
  /\ application (tables db1) = application (tables db)
  /\ application_variable (tables db1) = application_variable (tables db)
  /\ (err <> None ->
      application_variable_audit (tables db1) = application_variable_audit (tables db)).
Proof.
  intros H.
  destruct err as [e|].
  - assert (Ht : tables db1 = tables db).
    { unfold CreateAudit, GetAllVariable, Query in H.
      rewrite begin_stmt_cases in H.
      destruct (next_fault db) as [msg|]; simpl in H.
      { injection H as <- _. apply tables_after_stmt. }
      destruct (GetAllVariable_rows E _ _ _) as [vars [e1|]].
      { injection H as <- _. apply tables_after_stmt. }
      destruct (Marshal E _) as [data [e2|]].
      { injection H as <- _. apply tables_after_stmt. }
      destruct (Exec_insert_audit _ _ _ _) as [[db2 res] err2] eqn:HX.
      injection H as <- ->.
      rewrite (Exec_insert_audit_tables _ _ _ _ _ _ _ HX).
      apply tables_after_stmt. }
    rewrite Ht. auto.
  - destruct (GetAllVariable E db key (Application_Name app) [WithEncryptPassword])
      as [[dbq recorded] [e|]] eqn:HG.
    { unfold CreateAudit in H. rewrite HG in H. discriminate. }
    destruct (CreateAudit_ok_inv E db dbq db1 key app u recorded HG H)
      as (data & _ & Hp & Ha & Hv & _).
    repeat split; try assumption. intros Hneq. now contradiction Hneq.
Qed.

Lemma CreateAudit_changes_only_the_audit_table_witness :
  application_variable
    (tables (fst (CreateAudit Demo.env (mkDB Demo.t0 4 1 10 [None; Some "pq: disk full"])
                    "PRJ" Demo.app_A Demo.alice)))
  = application_variable Demo.t0
  /\ application_variable_audit
       (tables (fst (CreateAudit Demo.env
                       (mkDB Demo.t0 4 1 10 [None; Some "pq: disk full"])
                       "PRJ" Demo.app_A Demo.alice)))
     = [].
Proof.
  destruct (CreateAudit_changes_only_the_audit_table Demo.env
              (mkDB Demo.t0 4 1 10 [None; Some "pq: disk full"])
              (fst (CreateAudit Demo.env (mkDB Demo.t0 4 1 10 [None; Some "pq: disk full"])
                      "PRJ" Demo.app_A Demo.alice))
              "PRJ" Demo.app_A Demo.alice (Some (ErrDriver "pq: disk full")) eq_refl)
    as (_ & _ & Hv & Ha).
  split; [exact Hv|]. apply Ha. discriminate.
Defined.

Lemma redact_CreateAudit_encode (E : Env) (v : Variable') :
  redact E (CreateAudit_encode E v) = redact E v.
Proof.
  unfold redact, CreateAudit_encode.
  destruct (NeedPlaceholder E (Type' v)) eqn:H; simpl; now rewrite H.
Qed.

(** X21. Record, then list: after a successful [CreateAudit], when the
    serialisation gives the recorded collection back and the snapshots stored
    before could be listed, [GetVariableAudit] lists them still, and with
    them the new snapshot: under the identifier it was given, with its author
    and its time, holding the variables read at record time with the
    placeholder for every secret. *)
Theorem GetVariableAudit_after_CreateAudit (E : Env) (db dbq dbl db1 : DB)
    (key : string) (app : Application) (u : User) (recorded : list Variable')
    (before : list VariableAudit) :
  GetAllVariable E db key (Application_Name app) [WithEncryptPassword]
  = (dbq, recorded, None) ->
  CreateAudit E db key app u = (db1, None) ->
  (forall data,
     Marshal E (map (CreateAudit_encode E) recorded) = (data, None) ->
     Unmarshal E data = (map (CreateAudit_encode E) recorded, None)) ->
  joined_owner (tables db) (Application_ID app) (Application_Name app) key <> [] ->
  GetVariableAudit E db key (Application_Name app) = (dbl, before, None) ->
  next_fault db1 = None ->
  exists audits,
    GetVariableAudit E db1 key (Application_Name app) = (after_stmt db1, audits, None)
    /\ In (mkVariableAudit (application_variable_audit_id_seq db) (clock db1)
             (map (redact E) recorded) (Username u)) audits
    /\ forall a, In a before -> In a audits.
Proof.
  intros HG HC Hjson Hown Hbefore Hf1.
  destruct (CreateAudit_ok_inv E db dbq db1 key app u recorded HG HC)
    as (block & HM & Hp & Ha & _ & Haudits).
  specialize (Hjson block HM).
  set (row := mkAuditRow (application_variable_audit_id_seq db) (clock db1)
                (Application_ID app) (string_of_list_byte block) (Username u)) in *.
  assert (Hjoin : forall id, joined_owner (tables db1) id (Application_Name app) key
                             = joined_owner (tables db) id (Application_Name app) key)
    by (intros id; now apply joined_owner_tables).
  assert (Hsel : forall r, In r (select_audits (tables db1) (Application_Name app) key)
                 <-> r = row
                     \/ In r (select_audits (tables db) (Application_Name app) key)).
  { intros r. rewrite !In_select_audits, Haudits, in_app_iff, Hjoin. simpl. split.
    - intros [[Hr|[<-|[]]] Hj]; auto.
    - intros [->|[Hr Hj]]; [|auto]. split; [right; now left|exact Hown]. }
  assert (Hold : Forall (fun r => snd (Unmarshal E (list_byte_of_string (data r))) = None)
                   (select_audits (tables db) (Application_Name app) key)
                 /\ before = map (redacted_audit E)
                               (select_audits (tables db) (Application_Name app) key)).
  { unfold GetVariableAudit in Hbefore.
    destruct (Query db _) as [[db' rows] [e|]] eqn:HQ; [discriminate|].
    apply Query_inv in HQ. destruct HQ as (_ & _ & ->).
    destruct (GetVariableAudit_rows E _ _) as [as' err] eqn:Hrows.
    injection Hbefore as _ <- ->.
    apply GetVariableAudit_rows_inv in Hrows. exact Hrows. }
  destruct Hold as [Hok ->].
  assert (Hrow : Unmarshal E (list_byte_of_string (data row))
                 = (map (CreateAudit_encode E) recorded, None))
    by (simpl; now rewrite list_byte_of_string_of_list_byte).
  exists (map (redacted_audit E)
            (select_audits (tables db1) (Application_Name app) key)).
  split; [|split].
  - unfold GetVariableAudit. rewrite (Query_ok _ _ Hf1).
    rewrite GetVariableAudit_rows_ok; [reflexivity|].
    apply Forall_forall. intros r Hr. apply Hsel in Hr. destruct Hr as [->|Hr].
    + now rewrite Hrow.
    + rewrite Forall_forall in Hok. now apply Hok.
  - apply in_map_iff. exists row. split; [|apply Hsel; now left].
    unfold redacted_audit. rewrite Hrow. simpl. f_equal.
    rewrite map_map. apply map_ext. intros v. apply redact_CreateAudit_encode.
  - intros a Hin. apply in_map_iff in Hin. destruct Hin as (r & <- & Hr).
    apply in_map. apply Hsel. now right.
Qed.

Lemma GetVariableAudit_after_CreateAudit_witness :
  exists audits,
    GetVariableAudit Demo.env
      (fst (CreateAudit Demo.env Demo.db0 "PRJ" Demo.app_A Demo.alice)) "PRJ" "A"
    = (after_stmt (fst (CreateAudit Demo.env Demo.db0 "PRJ" Demo.app_A Demo.alice)),
       audits, None)
    /\ In (mkVariableAudit 1 12
             [ mkVariable 1 "DB_PASS" "**********" "password";
               mkVariable 2 "ENV" "prod" "string" ] "alice") audits
    /\ forall a, In a [] -> In a audits.
Proof.
  apply (GetVariableAudit_after_CreateAudit Demo.env Demo.db0 (after_stmt Demo.db0)
           (after_stmt Demo.db0)
           (fst (CreateAudit Demo.env Demo.db0 "PRJ" Demo.app_A Demo.alice))
           "PRJ" Demo.app_A Demo.alice
           [ mkVariable 1 "DB_PASS" "enc:t3rc3s" "password";
             mkVariable 2 "ENV" "prod" "string" ] []).
  - reflexivity.
  - reflexivity.
  - intros data H. injection H as <-. reflexivity.
  - discriminate.
  - reflexivity.
  - reflexivity.
Defined.

(** X22. A snapshot that is not the owner's: when no stored snapshot has the
    identifier and belongs to the application of that name in that project,
    [GetAudit] returns [sql.ErrNoRows] and no variable; the snapshot of
    another application is not returned under this name. *)
Theorem GetAudit_missing_snapshot (E : Env) (db : DB) (key appName : string)
    (auditID : Z) :
  next_fault db = None ->
  Forall (fun a => audit_id a <> auditID
                   \/ joined_owner (tables db) (audit_application_id a) appName key = [])
    (application_variable_audit (tables db)) ->
  GetAudit E db key appName auditID = (after_stmt db, [], Some ErrNoRows).
Proof.
  intros Hf Hnone. unfold GetAudit. rewrite (Query_ok _ _ Hf).
  rewrite (select_nil (select_audit (tables db) appName key auditID));
    [reflexivity|].
  intros r Hr. apply In_select_audit in Hr. destruct Hr as (Hr & Hid & Hown).
  rewrite Forall_forall in Hnone. destruct (Hnone r Hr); contradiction.
Qed.

Lemma GetAudit_missing_snapshot_witness :
  GetAudit Demo.env
    (fst (CreateAudit Demo.env Demo.db0 "PRJ" Demo.app_A Demo.alice)) "PRJ" "B" 1
  = (after_stmt (fst (CreateAudit Demo.env Demo.db0 "PRJ" Demo.app_A Demo.alice)),
     [], Some ErrNoRows).
Proof.
  apply (GetAudit_missing_snapshot Demo.env
           (fst (CreateAudit Demo.env Demo.db0 "PRJ" Demo.app_A Demo.alice))
           "PRJ" "B" 1).
  - reflexivity.
  - constructor; [right; reflexivity|constructor].
Defined.

Lemma DecodeString_error (s : string) (e : error) :
  snd (Base64.DecodeString s) = Some e -> e = CorruptInputError.
Proof.
  unfold Base64.DecodeString.
  destruct (Base64.decode _); simpl; congruence.
Qed.

Lemma GetAudit_decode_error (E : Env) (variables : list Variable') :
  Exists (fun v => NeedPlaceholder E (Type' v) = true
                   /\ snd (Base64.DecodeString (Value v)) <> None) variables ->
  GetAudit_decode E variables = ([], Some CorruptInputError).
Proof.
  induction variables as [|v vs IH]; intros H; [inversion H|].
  cbn [GetAudit_decode].
  destruct (NeedPlaceholder E (Type' v)) eqn:Hs.
  - destruct (Base64.DecodeString (Value v)) as [decode [e|]] eqn:Hd.
    + assert (He : e = CorruptInputError)
        by (apply (DecodeString_error (Value v)); now rewrite Hd).
      now subst.
    + rewrite IH; [reflexivity|].
      inversion H as [? ? [_ Hbad]|]; subst; [|assumption].
      rewrite Hd in Hbad. now contradiction Hbad.
  - rewrite IH; [reflexivity|].
    inversion H as [? ? [Hs' _]|]; subst; [congruence|assumption].
Qed.

(** X23. A token that is not base64: when the block of the snapshot
    deserialises, even partly, to a collection in which the value of a
    secret-kind entry does not decode, [GetAudit] returns
    [base64.CorruptInputError] and no variable, the well-formed entries
    included. *)
Theorem GetAudit_fails_on_malformed_token (E : Env) (db : DB) (key appName : string)
    (r : AuditRow) (v : Variable') :
  next_fault db = None ->
  In r (application_variable_audit (tables db)) ->
  joined_owner (tables db) (audit_application_id r) appName key <> [] ->
  (forall a, In a (application_variable_audit (tables db)) ->
             audit_id a = audit_id r -> a = r) ->
  In v (fst (Unmarshal E (list_byte_of_string (data r)))) ->
  NeedPlaceholder E (Type' v) = true ->
  snd (Base64.DecodeString (Value v)) <> None ->
  GetAudit E db key appName (audit_id r) = (after_stmt db, [], Some CorruptInputError).
Proof.
  intros Hf Hr Hown Huniq Hv Hs Hbad. unfold GetAudit.
  rewrite (Query_ok _ _ Hf), (first_row_select_audit _ _ _ r Hr Hown Huniq).
  destruct (Unmarshal E _) as [vars uerr]. simpl in Hv.
  rewrite GetAudit_decode_error; [reflexivity|].
  apply Exists_exists. exists v. auto.
Qed.

Lemma GetAudit_fails_on_malformed_token_witness :
  GetAudit Demo.env
    (mkDB (mkTables (project Demo.t0) (application Demo.t0) []
             [ mkAuditRow 1 5 1
                 (string_of_list_byte
                    (fst (Demo.Marshal
                            [ mkVariable 2 "ENV" "prod" "string";
                              mkVariable 1 "DB_PASS" "not base64!" "password" ])))
                 "alice" ])
       1 2 10 [])
    "PRJ" "A" 1
  = (after_stmt
       (mkDB (mkTables (project Demo.t0) (application Demo.t0) []
                [ mkAuditRow 1 5 1
                    (string_of_list_byte
                       (fst (Demo.Marshal
                               [ mkVariable 2 "ENV" "prod" "string";
                                 mkVariable 1 "DB_PASS" "not base64!" "password" ])))
                    "alice" ])
          1 2 10 []),
     [], Some CorruptInputError).
Proof.
  apply (GetAudit_fails_on_malformed_token Demo.env
           (mkDB (mkTables (project Demo.t0) (application Demo.t0) []
                    [ mkAuditRow 1 5 1
                        (string_of_list_byte
                           (fst (Demo.Marshal
                                   [ mkVariable 2 "ENV" "prod" "string";
                                     mkVariable 1 "DB_PASS" "not base64!" "password" ])))
                        "alice" ])
              1 2 10 [])
           "PRJ" "A"
           (mkAuditRow 1 5 1
              (string_of_list_byte
                 (fst (Demo.Marshal
                         [ mkVariable 2 "ENV" "prod" "string";
                           mkVariable 1 "DB_PASS" "not base64!" "password" ])))
              "alice")
           (mkVariable 1 "DB_PASS" "not base64!" "password")).
  - reflexivity.
  - left; reflexivity.
  - discriminate.
  - intros a [<-|[]] _. reflexivity.
  - right; left; reflexivity.
  - reflexivity.
  - discriminate.
Defined.

(** X24. [GetAudit] does not stop at a block that does not deserialise: it
    decodes what [json.Unmarshal] left in the collection, and when those
    tokens decode it returns these variables together with the error of the
    deserialisation; the error is never dropped. *)
Theorem GetAudit_returns_unmarshal_error (E : Env) (db : DB) (key appName : string)
    (r : AuditRow) (partial decoded : list Variable') (e : error) :
  next_fault db = None ->
  In r (application_variable_audit (tables db)) ->
  joined_owner (tables db) (audit_application_id r) appName key <> [] ->
  (forall a, In a (application_variable_audit (tables db)) ->
             audit_id a = audit_id r -> a = r) ->
  Unmarshal E (list_byte_of_string (data r)) = (partial, Some e) ->
  (GetAudit_decode E partial = (decoded, None) ->
   GetAudit E db key appName (audit_id r) = (after_stmt db, decoded, Some e))
  /\ snd (GetAudit E db key appName (audit_id r)) <> None.
Proof.
  intros Hf Hr Hown Huniq HU. unfold GetAudit.
  rewrite (Query_ok _ _ Hf), (first_row_select_audit _ _ _ r Hr Hown Huniq), HU.
  split.
  - intros ->. reflexivity.
  - destruct (GetAudit_decode E partial) as [vars [e'|]]; simpl; discriminate.
Qed.

Lemma GetAudit_returns_unmarshal_error_witness :
  snd (GetAudit Demo.env Demo.db_bad_block "PRJ" "A" 2) <> None.
Proof.
  apply (GetAudit_returns_unmarshal_error Demo.env Demo.db_bad_block "PRJ" "A"
           (mkAuditRow 2 6 1 "{oops" "alice") [] []
           (ErrJSON "invalid character looking for beginning of value")).
  - reflexivity.
  - right; left; reflexivity.
  - discriminate.
  - intros a [<-|[<-|[]]] Hid; [discriminate|reflexivity].
  - reflexivity.
Defined.

(** ** The snapshots and the variable store *)

Lemma UpdateLastModified_audits (db : DB) (applicationID : Z) :
  application_variable_audit (tables (fst (UpdateLastModified db applicationID)))
  = application_variable_audit (tables db).
Proof.
  unfold UpdateLastModified. rewrite Exec_touch_application_eq.
  destruct (next_fault db); simpl; [now rewrite tables_after_stmt|reflexivity].
Qed.

(** X25. No operation of the variable store touches a stored snapshot:
    whatever their arguments and their outcome, [InsertVariable],
    [UpdateVariable], [DeleteVariable] and [DeleteAllVariable] leave the table
    of the snapshots as it was. *)
Theorem variable_store_keeps_the_snapshots (E : Env) (db : DB) (applicationID : Z)
    (variable : Variable') (variableName : string) :
  application_variable_audit
    (tables (fst (InsertVariable E db applicationID variable)))
  = application_variable_audit (tables db)
  /\ application_variable_audit
       (tables (fst (UpdateVariable E db applicationID variable)))
     = application_variable_audit (tables db)
  /\ application_variable_audit
       (tables (fst (DeleteVariable db applicationID variableName)))
     = application_variable_audit (tables db)
  /\ application_variable_audit (tables (fst (DeleteAllVariable db applicationID)))
     = application_variable_audit (tables db).
Proof.
  repeat split.
  - unfold InsertVariable.
    destruct (EncryptS E _ _) as [[clear cipher] [e|]]; [reflexivity|].
    rewrite Exec_insert_variable_eq.
    destruct (next_fault db) as [msg|]; simpl.
    { destruct (Contains msg _); simpl; now rewrite tables_after_stmt. }
    destruct (has_variable _ _ _); simpl; [reflexivity|].
    now rewrite UpdateLastModified_audits.
  - unfold UpdateVariable.
    destruct (NeedPlaceholder E _ && _); [reflexivity|].
    destruct (EncryptS E _ _) as [[clear cipher] [e|]]; [reflexivity|].
    rewrite Exec_update_variable_eq.
    destruct (next_fault db) as [msg|]; simpl.
    { now rewrite tables_after_stmt. }
    destruct (_ =? 0); simpl; [reflexivity|].
    now rewrite UpdateLastModified_audits.
  - unfold DeleteVariable. rewrite Exec_delete_variable_eq.
    destruct (next_fault db) as [msg|]; simpl.
    { now rewrite tables_after_stmt. }
    destruct (_ =? 0); simpl; [reflexivity|].
    now rewrite UpdateLastModified_audits.
  - unfold DeleteAllVariable. rewrite Exec_delete_all_variables_eq.
    destruct (next_fault db) as [msg|]; simpl.
    { now rewrite tables_after_stmt. }
    rewrite Exec_touch_application_eq.
    destruct (next_fault _); simpl; [now rewrite tables_after_stmt|reflexivity].
Qed.
